(** * sureha: the pet/feeder access switch ([switch.py])

    A shallow embedding of the Home Assistant switch platform of the
    Sure Petcare integration: the entity constructors, the [is_on] query,
    the [device_info] property, the two commands with their confirm loops,
    and the enumeration of (pet, feeder) pairs in [async_setup_entry].

    Python values that reach the code as decoded JSON are modelled by
    [PyVal]; exceptions by the [Result] error monad; the coordinator cache
    ([coordinator.data], a [dict] keyed by entity id) by a [gmap]; the
    awaits of the two commands by explicit state passing over a [World]
    that records every remote request, sleep and refresh. *)

From Stdlib Require Import ZArith Lia Ascii String DecimalString DecimalPos DecimalZ.
From stdpp Require Import base option list strings gmap fin_maps.

#[local] Set Warnings "-register-all".
Local Open Scope Z_scope.
Local Open Scope string_scope.
Local Open Scope list_scope.

(** ** Exceptions *)

(** The exception classes the code can meet.  [KeyError] comes from a
    [dict] subscript, [AttributeError] from an attribute or method that
    the object does not have, [TypeError] from subscripting a value that
    is not a mapping, and [RemoteError] stands for whatever the API
    client raises (network failure, non-2xx answer). *)
Inductive PyErr : Type :=
  | KeyError
  | AttributeError
  | TypeError
  | RemoteError.

#[global] Instance PyErr_eq_dec : EqDecision PyErr.
Proof. solve_decision. Defined.

Inductive Result (A : Type) : Type :=
  | Return (a : A)
  | Raise (e : PyErr).
Arguments Return {A} a.
Arguments Raise {A} e.

#[global] Instance Result_ret : MRet Result := @Return.
#[global] Instance Result_bind : MBind Result := fun A B k r =>
  match r with
  | Return a => k a
  | Raise e => Raise e
  end.

(** ** Python values *)

(** A decoded JSON document.  Numbers are integers; a [dict] keeps its
    items in insertion order and is read by first match. *)
Inductive PyVal : Type :=
  | PNone
  | PBool (b : bool)
  | PInt (z : Z)
  | PStr (s : string)
  | PList (l : list PyVal)
  | PDict (d : list (string * PyVal)).

Abbreviation PyDict := (list (string * PyVal)).

(** [bool(v)] *)
Definition truthy (v : PyVal) : bool :=
  match v with
  | PNone => false
  | PBool b => b
  | PInt z => negb (z =? 0)%Z
  | PStr s => negb (String.eqb s EmptyString)
  | PList l => match l with [] => false | _ => true end
  | PDict d => match d with [] => false | _ => true end
  end.

(** [d.get(k)] on a real [dict]: [None] when the key is absent. *)
Fixpoint dict_lookup (d : PyDict) (k : string) : option PyVal :=
  match d with
  | [] => None
  | (k', v) :: r => if String.eqb k' k then Some v else dict_lookup r k
  end.

Definition dict_get (d : PyDict) (k : string) : PyVal :=
  default PNone (dict_lookup d k).

(** [d.get(k, dflt)] *)
Definition dict_get_default (d : PyDict) (k : string) (dflt : PyVal) : PyVal :=
  default dflt (dict_lookup d k).

(** [v.get(k)] and [v.get(k, dflt)] on an arbitrary value: only a [dict]
    has the method. *)
Definition py_get (v : PyVal) (k : string) : Result PyVal :=
  match v with
  | PDict d => Return (dict_get d k)
  | _ => Raise AttributeError
  end.

Definition py_get_default (v : PyVal) (k : string) (dflt : PyVal) : Result PyVal :=
  match v with
  | PDict d => Return (dict_get_default d k dflt)
  | _ => Raise AttributeError
  end.

(** [v[k]] with a string key: a [dict] answers or raises [KeyError];
    nothing else accepts a string subscript. *)
Definition py_subscript (v : PyVal) (k : string) : Result PyVal :=
  match v with
  | PDict d =>
      match dict_lookup d k with
      | Some x => Return x
      | None => Raise KeyError
      end
  | _ => Raise TypeError
  end.

(** ** Strings *)

(** [str(n)] for an integer. *)
Definition str_of_Z (z : Z) : string := NilZero.string_of_int (Z.to_int z).

Definition is_lower (c : ascii) : bool :=
  let n := N_of_ascii c in ((97 <=? n) && (n <=? 122))%N.
Definition is_upper (c : ascii) : bool :=
  let n := N_of_ascii c in ((65 <=? n) && (n <=? 90))%N.
Definition to_upper (c : ascii) : ascii :=
  if is_lower c then ascii_of_N (N_of_ascii c - 32) else c.
Definition to_lower (c : ascii) : ascii :=
  if is_upper c then ascii_of_N (N_of_ascii c + 32) else c.

Fixpoint str_map (f : ascii -> ascii) (s : string) : string :=
  match s with
  | EmptyString => EmptyString
  | String c r => String (f c) (str_map f r)
  end.

(** [s.replace("_", " ")] *)
Definition replace_underscore (s : string) : string :=
  str_map (fun c => if Ascii.eqb c "_"%char then " "%char else c) s.

(** [s.title()]: a letter that follows a letter is lowered, any other
    letter is raised. *)
Fixpoint title_from (after_letter : bool) (s : string) : string :=
  match s with
  | EmptyString => EmptyString
  | String c r =>
      if is_lower c || is_upper c
      then String (if after_letter then to_lower c else to_upper c) (title_from true r)
      else String c (title_from false r)
  end.
Definition title (s : string) : string := title_from false s.

(** [s.capitalize()] *)
Definition capitalize (s : string) : string :=
  match s with
  | EmptyString => EmptyString
  | String c r => String (to_upper c) (str_map to_lower r)
  end.

(** [str(v)] as an f-string renders it.  Inside a container Python
    shows [repr], which differs from [str] on strings only (quotes; the
    escaping of quotes inside the string is not reproduced). *)
Fixpoint py_repr (v : PyVal) : string :=
  match v with
  | PNone => "None"
  | PBool true => "True"
  | PBool false => "False"
  | PInt z => str_of_Z z
  | PStr s => "'" +:+ s +:+ "'"
  | PList l =>
      "[" +:+
      (fix items (first : bool) (l : list PyVal) : string :=
         match l with
         | [] => EmptyString
         | x :: r => (if first then EmptyString else ", ") +:+ py_repr x +:+ items false r
         end) true l
      +:+ "]"
  | PDict d =>
      "{" +:+
      (fix items (first : bool) (d : PyDict) : string :=
         match d with
         | [] => EmptyString
         | (k, x) :: r =>
             (if first then EmptyString else ", ") +:+ "'" +:+ k +:+ "': " +:+ py_repr x
             +:+ items false r
         end) true d
      +:+ "}"
  end.

Definition py_str (v : PyVal) : string :=
  match v with
  | PStr s => s
  | _ => py_repr v
  end.

(** ** The vendor library's entities *)

(** [surepy.enums.EntityType]; only [PET] and [FEEDER] are named by the
    switch platform, the others reach it through the cache. *)
Inductive EntityType : Type :=
  | PET | HUB | REPEATER | PET_FLAP | FEEDER
  | PROGRAMMER | CAT_FLAP | FEEDER_LITE | FELAQUA | DEVICES.

#[global] Instance EntityType_eq_dec : EqDecision EntityType.
Proof. solve_decision. Defined.

(** [t.name] of the enum member. *)
Definition EntityType_name (t : EntityType) : string :=
  match t with
  | PET => "PET" | HUB => "HUB" | REPEATER => "REPEATER"
  | PET_FLAP => "PET_FLAP" | FEEDER => "FEEDER" | PROGRAMMER => "PROGRAMMER"
  | CAT_FLAP => "CAT_FLAP" | FEEDER_LITE => "FEEDER_LITE"
  | FELAQUA => "FELAQUA" | DEVICES => "DEVICES"
  end.

Module Tag.
(** A tag attached to a device; the switch reads its [id] only. *)
Record t : Type := { id : Z }.
End Tag.

Module Entity.
(** What every [SurepyEntity] offers: [id], [household_id], [type],
    [name] (a [str], or [None] when the device has no name) and the
    decoded document behind [raw_data()]. *)
Record t : Type := {
  id : Z;
  household_id : Z;
  type : EntityType;
  name : option string;
  raw_data : PyDict;
}.
End Entity.

(** The classes the switch tells apart: a [Pet] has a [tag_id], a
    [Feeder] has [tags], any other entity has neither attribute. *)
Inductive SurepyEntity : Type :=
  | SurePet (b : Entity.t) (tag_id : Z)
  | SureFeeder (b : Entity.t) (tags : gmap Z Tag.t)
  | SureDevice (b : Entity.t).

Definition base (e : SurepyEntity) : Entity.t :=
  match e with
  | SurePet b _ | SureFeeder b _ | SureDevice b => b
  end.

(** ** The coordinator cache *)

(** What a slot of [coordinator.data] holds: an entity, or [None].
    An entity object is always truthy; [None] is what the truth test of
    [is_on] can reject. *)
Inductive CacheEntry : Type :=
  | NoneEntry
  | EntityEntry (e : SurepyEntity).

Abbreviation Cache := (gmap Z CacheEntry).

(** [bool(entry)] *)
Definition entry_truthy (c : CacheEntry) : bool :=
  match c with
  | NoneEntry => false
  | EntityEntry _ => true
  end.

(** [data[k]]: a [dict] subscript. *)
Definition cache_subscript (data : Cache) (k : Z) : Result CacheEntry :=
  match data !! k with
  | Some c => Return c
  | None => Raise KeyError
  end.

(** Attribute access on what came out of the cache. *)
Definition entry_base (c : CacheEntry) : Result Entity.t :=
  match c with
  | EntityEntry e => Return (base e)
  | NoneEntry => Raise AttributeError
  end.

(** [entry.tag_id] *)
Definition entry_tag_id (c : CacheEntry) : Result Z :=
  match c with
  | EntityEntry (SurePet _ tag) => Return tag
  | _ => Raise AttributeError
  end.

(** [entry.tags] *)
Definition entry_tags (c : CacheEntry) : Result (gmap Z Tag.t) :=
  match c with
  | EntityEntry (SureFeeder _ tags) => Return tags
  | _ => Raise AttributeError
  end.

(** [{t.id for t in tags.values()}] *)
Definition tag_ids (tags : gmap Z Tag.t) : gset Z :=
  list_to_set (Tag.id <$> (map_to_list tags).*2).

(** ** The switch entity *)

(** The attributes [SurePetcareSwitch.__init__] sets on [self].  The
    references [_coordinator] and [_spc] are not fields here: the cache
    and the remote client are passed to the methods that use them. *)
Record SurePetcareSwitch : Type := {
  _id : Z;
  _surepy_entity : SurepyEntity;
  _state : PyVal;
  _name : string;
  _attr_available : bool;
  _attr_name : string;
  _attr_unique_id : string;
  (** set only when [_state] is truthy *)
  _attr_extra_state_attributes : option PyDict;
}.

(** [PetFeederAccess] extends the switch by [_feeder_id]. *)
Record PetFeederAccess : Type := {
  switch :> SurePetcareSwitch;
  _feeder_id : Z;
}.

(** [type.name.replace("_", " ").title()] *)
Definition type_title (t : EntityType) : string :=
  title (replace_underscore (EntityType_name t)).

(** Truth value of [entity.name]. *)
Definition name_truthy (n : option string) : bool :=
  match n with
  | Some s => negb (String.eqb s EmptyString)
  | None => false
  end.

(** How an f-string renders [entity.name]. *)
Definition name_str (n : option string) : string :=
  match n with
  | Some s => s
  | None => "None"
  end.

(** [SurePetcareSwitch.__init__(coordinator, _id, spc)] *)
Definition SurePetcareSwitch_init (data : Cache) (id_ : Z) : Result SurePetcareSwitch :=
  entry ← cache_subscript data id_;
  match entry with
  | NoneEntry => Raise AttributeError
  | EntityEntry ent =>
      let b := base ent in
      let state := dict_get_default (Entity.raw_data b) "status" (PDict []) in
      let type_name := type_title (Entity.type b) in
      let name :=
        if name_truthy (Entity.name b) then name_str (Entity.name b)
        else "Unnamed " +:+ type_name in
      Return {|
        _id := id_;
        _surepy_entity := ent;
        _state := state;
        _name := name;
        _attr_available := truthy state;
        _attr_name := type_name +:+ " " +:+ name;
        _attr_unique_id := str_of_Z (Entity.household_id b) +:+ "-" +:+ str_of_Z id_;
        _attr_extra_state_attributes :=
          if truthy state then Some (Entity.raw_data b) else None;
      |}
  end.

(** [PetFeederAccess.__init__(coordinator, _pet_id, _feeder_id, spc)] *)
Definition PetFeederAccess_init (data : Cache) (pet_id feeder_id : Z)
  : Result PetFeederAccess :=
  self ← SurePetcareSwitch_init data pet_id;
  feeder ← cache_subscript data feeder_id;
  fb ← entry_base feeder;
  let b := base (_surepy_entity self) in
  Return {|
    switch := {|
      _id := _id self;
      _surepy_entity := _surepy_entity self;
      _state := _state self;
      _name := _name self;
      _attr_available := _attr_available self;
      _attr_name := _attr_name self +:+ " " +:+ name_str (Entity.name fb) +:+ " Access";
      _attr_unique_id :=
        str_of_Z (Entity.household_id b) +:+ "-" +:+ str_of_Z (Entity.id b) +:+ "-"
        +:+ str_of_Z (Entity.id fb) +:+ "-feeder-access";
      _attr_extra_state_attributes := _attr_extra_state_attributes self;
    |};
    _feeder_id := feeder_id;
  |}.

(** The three answers of the query: [Some true] is on, [Some false] is
    off, [None] is Python's [None] (unknown). *)
Abbreviation on := (Some true).
Abbreviation off := (Some false).
Abbreviation unknown := (@None bool).

(** [PetFeederAccess.is_on] *)
Definition is_on (self : PetFeederAccess) (data : Cache) : Result (option bool) :=
  pet ← cache_subscript data (_id self);
  if entry_truthy pet then
    feeder ← cache_subscript data (_feeder_id self);
    if entry_truthy feeder then
      tag ← entry_tag_id pet;
      tags ← entry_tags feeder;
      Return (Some (bool_decide (tag ∈ tag_ids tags)))
    else Return unknown
  else Return unknown.

(** ** Enumeration of the pairs: [async_setup_entry] *)

(** [[e for e in values if e.type == t]]: the comprehension reads [type]
    off every value of the cache, so a [None] slot raises. *)
Fixpoint select_type (t : EntityType) (values : list CacheEntry)
  : Result (list SurepyEntity) :=
  match values with
  | [] => Return []
  | NoneEntry :: _ => Raise AttributeError
  | EntityEntry e :: r =>
      rest ← select_type t r;
      Return (if decide (Entity.type (base e) = t) then e :: rest else rest)
  end.

(** The inner [for f in feeders] loop for one pet; [entities] is the
    list appended to. *)
Fixpoint for_feeders (data : Cache) (p : SurepyEntity) (feeders : list SurepyEntity)
    (entities : list PetFeederAccess) : Result (list PetFeederAccess) :=
  match feeders with
  | [] => Return entities
  | f :: r =>
      if decide (Entity.household_id (base p) ≠ Entity.household_id (base f))
      then for_feeders data p r entities
      else
        toggle ← PetFeederAccess_init data (Entity.id (base p)) (Entity.id (base f));
        for_feeders data p r (entities ++ [toggle])
  end.

(** The outer [for p in pets] loop. *)
Fixpoint for_pets (data : Cache) (pets feeders : list SurepyEntity)
    (entities : list PetFeederAccess) : Result (list PetFeederAccess) :=
  match pets with
  | [] => Return entities
  | p :: r =>
      entities' ← for_feeders data p feeders entities;
      for_pets data r feeders entities'
  end.

(** [async_setup_entry]: the result is the list handed to
    [async_add_entities].  [data] is [spc.coordinator.data], the
    integration's entry in [hass.data] being in place.  The values come
    in the map's order, not in the order Python inserted them; the
    toggles are the same up to order. *)
Definition async_setup_entry (data : Cache) : Result (list PetFeederAccess) :=
  let values := (map_to_list data).*2 in
  pets ← select_type PET values;
  feeders ← select_type FEEDER values;
  for_pets data pets feeders [].

(** ** The world outside the switch *)

Inductive Method : Type := PUT | DELETE.

(** One call of [spc.surepy.sac.call]: [PUT] carries the empty document
    as [data], [DELETE] carries none. *)
Record Request : Type := {
  method : Method;
  resource : string;
  body : option PyVal;
}.

(** What a command does that the outside can see. *)
Inductive Event : Type :=
  | Called (r : Request)
  | Slept (seconds : Z)
  | Refreshed.

(** The coordinator cache as the switch finds it, and the events so
    far, oldest first. *)
Record World : Type := {
  coordinator_data : Cache;
  events : list Event;
}.

(** The collaborators: what the remote client answers to a request
    (the decoded body, or an exception), and what the cache holds once
    [coordinator.async_request_refresh()] has returned.  Both may depend
    on everything that happened before.  The cache changes at a refresh
    only. *)
Record Env : Type := {
  sac_call : World → Request → Result PyVal;
  request_refresh : World → Cache;
}.

Definition record_event (ev : Event) (w : World) : World :=
  {| coordinator_data := coordinator_data w; events := events w ++ [ev] |}.

(** [await asyncio.sleep(seconds)] *)
Definition sleep (seconds : Z) (w : World) : World := record_event (Slept seconds) w.

(** [await self.coordinator.async_request_refresh()] *)
Definition async_request_refresh (env : Env) (w : World) : World :=
  {| coordinator_data := request_refresh env w; events := events w ++ [Refreshed] |}.

(** How a command ends: the coroutine returned, an exception left it,
    or it is still in its confirm loop when the fuel (the number of loop
    bodies it may run) is used up.  [self] is carried along: the object
    the command was called on, as the command leaves it. *)
Inductive Outcome : Type :=
  | Completed (self : PetFeederAccess) (w : World)
  | Raised (e : PyErr) (self : PetFeederAccess) (w : World)
  | Polling (self : PetFeederAccess) (w : World).

Definition outcome_self (o : Outcome) : PetFeederAccess :=
  match o with
  | Completed s _ | Raised _ s _ | Polling s _ => s
  end.

Definition outcome_world (o : Outcome) : World :=
  match o with
  | Completed _ w | Raised _ _ w | Polling _ w => w
  end.

(** [bool(self.is_on)]: [None] counts as false. *)
Definition answer_truthy (r : option bool) : bool := default false r.

Section Commands.

(** [BASE_RESOURCE] and [DEVICE_TAG_RESOURCE.format(...)] come from the
    vendor library's constants. *)
Variable BASE_RESOURCE : string.
Variable DEVICE_TAG_RESOURCE_format : string → Z → Z → string.
Variable env : Env.

Definition tag_resource (device_id tag_id : Z) : string :=
  DEVICE_TAG_RESOURCE_format BASE_RESOURCE device_id tag_id.

(** [_add_tag_to_device(spc, device_id, tag_id)] *)
Definition _add_tag_to_device (w : World) (device_id tag_id : Z)
  : Result PyVal * World :=
  let request :=
    {| method := PUT; resource := tag_resource device_id tag_id;
       body := Some (PDict []) |} in
  let w' := record_event (Called request) w in
  match sac_call env w request with
  | Raise e => (Raise e, w')
  | Return response => (Return (if truthy response then response else PNone), w')
  end.

(** [_remove_tag_from_device(spc, device_id, tag_id)] *)
Definition _remove_tag_from_device (w : World) (device_id tag_id : Z)
  : Result PyVal * World :=
  let request :=
    {| method := DELETE; resource := tag_resource device_id tag_id;
       body := None |} in
  let w' := record_event (Called request) w in
  match sac_call env w request with
  | Raise e => (Raise e, w')
  | Return response => (Return (if truthy response then response else PNone), w')
  end.

(** One body of either confirm loop. *)
Definition poll (w : World) : World := async_request_refresh env (sleep 2 w).

(** [while not self.is_on: sleep; refresh] *)
Fixpoint turn_on_loop (fuel : nat) (self : PetFeederAccess) (w : World) : Outcome :=
  match is_on self (coordinator_data w) with
  | Raise e => Raised e self w
  | Return answer =>
      if negb (answer_truthy answer) then
        match fuel with
        | O => Polling self w
        | S fuel' => turn_on_loop fuel' self (poll w)
        end
      else Completed self w
  end.

(** [while self.is_on: sleep; refresh] *)
Fixpoint turn_off_loop (fuel : nat) (self : PetFeederAccess) (w : World) : Outcome :=
  match is_on self (coordinator_data w) with
  | Raise e => Raised e self w
  | Return answer =>
      if answer_truthy answer then
        match fuel with
        | O => Polling self w
        | S fuel' => turn_off_loop fuel' self (poll w)
        end
      else Completed self w
  end.

(** [PetFeederAccess.async_turn_on] *)
Definition async_turn_on (fuel : nat) (self : PetFeederAccess) (w : World) : Outcome :=
  match cache_subscript (coordinator_data w) (_id self) with
  | Raise e => Raised e self w
  | Return pet =>
      match entry_tag_id pet with
      | Raise e => Raised e self w
      | Return tag =>
          match _add_tag_to_device w (_feeder_id self) tag with
          | (Raise e, w') => Raised e self w'
          | (Return _, w') => turn_on_loop fuel self w'
          end
      end
  end.

(** [PetFeederAccess.async_turn_off] *)
Definition async_turn_off (fuel : nat) (self : PetFeederAccess) (w : World) : Outcome :=
  match cache_subscript (coordinator_data w) (_id self) with
  | Raise e => Raised e self w
  | Return pet =>
      match entry_tag_id pet with
      | Raise e => Raised e self w
      | Return tag =>
          match _remove_tag_from_device w (_feeder_id self) tag with
          | (Raise e, w') => Raised e self w'
          | (Return _, w') => turn_off_loop fuel self w'
          end
      end
  end.

(** The world after [k] loop bodies. *)
Fixpoint after_polls (k : nat) (w : World) : World :=
  match k with
  | O => w
  | S k' => after_polls k' (poll w)
  end.

End Commands.

(** ** Device information: [SurePetcareSwitch.device_info] *)

(** A value of the [device] dictionary: the set of identifier pairs, or
    a plain value. *)
Inductive InfoVal : Type :=
  | Identifiers (ids : list (string * Z))
  | Info (v : PyVal).

(** The body of the [try] block runs over the local variable [device]:
    every step sees its current value and ends with a value or an
    exception, and the variable keeps what was last stored in it. *)
Definition Try (A : Type) : Type :=
  gmap string InfoVal → Result A * gmap string InfoVal.

#[global] Instance Try_ret : MRet Try := fun A a device => (Return a, device).
#[global] Instance Try_bind : MBind Try := fun A B k m device =>
  match m device with
  | (Return a, device') => k a device'
  | (Raise e, device') => (Raise e, device')
  end.

(** An expression evaluated inside the block. *)
Definition eval {A} (r : Result A) : Try A := fun device => (r, device).

(** [device = d] *)
Definition assign (d : gmap string InfoVal) : Try unit := fun _ => (Return tt, d).

(** [device[k] = v] *)
Definition setitem (k : string) (v : InfoVal) : Try unit :=
  fun device => (Return tt, <[k := v]> device).

(** [name.capitalize()]: [None] has no such method. *)
Definition name_capitalize (n : option string) : Result string :=
  match n with
  | Some s => Return (capitalize s)
  | None => Raise AttributeError
  end.

Section DeviceInfo.

(** Constants of the integration's [const] module. *)
Variable DOMAIN : string.
Variable SURE_MANUFACTURER : string.

(** The model string: the type title, followed by the first truthy
    one of serial number, MAC address and tag id. *)
Definition device_model (b : Entity.t) : string :=
  let model := type_title (Entity.type b) in
  let raw := Entity.raw_data b in
  let serial := dict_get raw "serial_number" in
  let mac_address := dict_get raw "mac_address" in
  let tag_id := dict_get raw "tag_id" in
  if truthy serial then model +:+ " (" +:+ py_str serial +:+ ")"
  else if truthy mac_address then model +:+ " (" +:+ py_str mac_address +:+ ")"
  else if truthy tag_id then model +:+ " (" +:+ py_str tag_id +:+ ")"
  else model.

(** The record assigned to [device] once the name is capitalised. *)
Definition base_device (self : SurePetcareSwitch) (name : string)
  : gmap string InfoVal :=
  let identifiers := Identifiers [(DOMAIN, _id self)] in
  <["identifiers" := identifiers]>
  (<["name" := Info (PStr name)]>
  (<["manufacturer" := Info (PStr SURE_MANUFACTURER)]>
  (<["model" := Info (PStr (device_model (base (_surepy_entity self))))]> ∅))).

(** The body of the [try] block. *)
Definition device_info_try (self : SurePetcareSwitch) : Try unit :=
  name ← eval (name_capitalize (Entity.name (base (_surepy_entity self))));
  _ ← assign (base_device self name);
  if truthy (_state self) then
    versions ← eval (py_get_default (_state self) "version" (PDict []));
    dev ← eval (py_get_default versions "device" (PDict []));
    dev_fw_version ← eval (py_get dev "firmware");
    _ ← (if truthy dev_fw_version
         then setitem "sw_version" (Info dev_fw_version)
         else mret tt);
    lcd_version ← eval (py_get_default versions "lcd" (PDict []));
    if truthy lcd_version then
      rf_version ← eval (py_get_default versions "rf" (PDict []));
      if truthy rf_version then
        lcd ← eval (py_get_default lcd_version "version" lcd_version);
        lcd_fw ← eval (py_subscript lcd "firmware");
        rf ← eval (py_get_default rf_version "version" rf_version);
        rf_fw ← eval (py_subscript rf "firmware");
        setitem "sw_version"
          (Info (PStr ("lcd: " +:+ py_str lcd_fw +:+ " | fw: " +:+ py_str rf_fw)))
      else mret tt
    else mret tt
  else mret tt.

(** [device_info]: [device = {}], the [try] block, [except
    AttributeError: pass], [return device]. *)
Definition device_info (self : SurePetcareSwitch) : Result (gmap string InfoVal) :=
  match device_info_try self ∅ with
  | (Return _, device) => Return device
  | (Raise AttributeError, device) => Return device
  | (Raise e, _) => Raise e
  end.

End DeviceInfo.

(** ** Concrete scenarios *)

(** Pet 1 (tag 7) and feeder 2 of household 10; the feeder carries the
    tags listed in [ids]. *)
Definition tom : Entity.t :=
  {| Entity.id := 1; Entity.household_id := 10; Entity.type := PET;
     Entity.name := Some "tom";
     Entity.raw_data := [("tag_id", PInt 7); ("status", PDict [("activity", PInt 1)])] |}.

Definition kitchen : Entity.t :=
  {| Entity.id := 2; Entity.household_id := 10; Entity.type := FEEDER;
     Entity.name := Some "Kitchen";
     Entity.raw_data :=
       [("serial_number", PStr "A1");
        ("status", PDict [("version", PDict [("lcd", PStr "1.2"); ("rf", PStr "3.4")])])] |}.

Definition tags_of (ids : list Z) : gmap Z Tag.t :=
  list_to_map ((fun i => (i, {| Tag.id := i |})) <$> ids).

Definition demo_cache (ids : list Z) : Cache :=
  <[1 := EntityEntry (SurePet tom 7)]>
  (<[2 := EntityEntry (SureFeeder kitchen (tags_of ids))]> ∅).

(** The same cache with the feeder slot holding [None]. *)
Definition cache_feeder_none : Cache :=
  <[1 := EntityEntry (SurePet tom 7)]> (<[2 := NoneEntry]> ∅).

(** The same cache without the feeder. *)
Definition cache_pet_only : Cache :=
  <[1 := EntityEntry (SurePet tom 7)]> ∅.

Definition demo_switch : SurePetcareSwitch :=
  {| _id := 1;
     _surepy_entity := SurePet tom 7;
     _state := PDict [("activity", PInt 1)];
     _name := "tom";
     _attr_available := true;
     _attr_name := "Pet tom Kitchen Access";
     _attr_unique_id := "10-1-2-feeder-access";
     _attr_extra_state_attributes := Some (Entity.raw_data tom) |}.

Definition demo_toggle : PetFeederAccess :=
  {| switch := demo_switch; _feeder_id := 2 |}.

Definition demo_base : string := "https://app.api.surehub.io/api".
Definition demo_format (b : string) (device_id tag_id : Z) : string :=
  b +:+ "/device/" +:+ str_of_Z device_id +:+ "/tag/" +:+ str_of_Z tag_id.

(** The remote side accepts every request; a refresh leaves the cache
    as it was (the change never shows). *)
Definition stalled_env : Env :=
  {| sac_call := fun _ _ => Return (PDict []);
     request_refresh := fun w => coordinator_data w |}.

(** The remote side accepts every request; the second refresh shows the
    feeder with tags 3, 7 and 9. *)
Definition converging_env : Env :=
  {| sac_call := fun _ _ => Return (PDict []);
     request_refresh := fun w =>
       if existsb (fun ev => match ev with Refreshed => true | _ => false end) (events w)
       then demo_cache [3; 7; 9]
       else coordinator_data w |}.

Definition demo_world (ids : list Z) : World :=
  {| coordinator_data := demo_cache ids; events := [] |}.

(** ** Notions the properties are stated with *)

(** The events of [k] loop bodies: a sleep of two seconds and a refresh
    each. *)
Fixpoint poll_events (k : nat) : list Event :=
  match k with
  | O => []
  | S k' => Slept 2 :: Refreshed :: poll_events k'
  end.

(** The shape the two confirm loops share: poll while [continue] holds
    of the answer. *)
Fixpoint poll_while (env : Env) (continue : option bool → bool) (fuel : nat)
    (self : PetFeederAccess) (w : World) : Outcome :=
  match is_on self (coordinator_data w) with
  | Raise e => Raised e self w
  | Return answer =>
      if continue answer then
        match fuel with
        | O => Polling self w
        | S fuel' => poll_while env continue fuel' self (poll env w)
        end
      else Completed self w
  end.

(** The cache as the coordinator fills it: every slot holds an entity,
    stored under its own id. *)
Definition cache_wf (data : Cache) : Prop :=
  ∀ k c, data !! k = Some c → ∃ e, c = EntityEntry e ∧ Entity.id (base e) = k.

(** The remote side answers the request without raising. *)
Definition accepted (env : Env) (w : World) (r : Request) : Prop :=
  ∃ response, sac_call env w r = Return response.

(** The two requests, as the helpers build them. *)
Definition attach_request (url : string) : Request :=
  {| method := PUT; resource := url; body := Some (PDict []) |}.

Definition detach_request (url : string) : Request :=
  {| method := DELETE; resource := url; body := None |}.

(** The switch entity of the feeder above: its status carries the LCD
    and RF versions as plain strings. *)
Definition kitchen_switch : SurePetcareSwitch :=
  {| _id := 2;
     _surepy_entity := SureFeeder kitchen (tags_of [3; 9]);
     _state := PDict [("version", PDict [("lcd", PStr "1.2"); ("rf", PStr "3.4")])];
     _name := "Kitchen";
     _attr_available := true;
     _attr_name := "Feeder Kitchen";
     _attr_unique_id := "10-2";
     _attr_extra_state_attributes := Some (Entity.raw_data kitchen) |}.

(** A hub whose name is [None]. *)
Definition nameless_hub : Entity.t :=
  {| Entity.id := 3; Entity.household_id := 10; Entity.type := HUB;
     Entity.name := None; Entity.raw_data := [] |}.

Definition nameless_switch : SurePetcareSwitch :=
  {| _id := 3;
     _surepy_entity := SureDevice nameless_hub;
     _state := PDict [];
     _name := "Unnamed Hub";
     _attr_available := false;
     _attr_name := "Hub Unnamed Hub";
     _attr_unique_id := "10-3";
     _attr_extra_state_attributes := None |}.

(** The pair of ids a toggle stands for. *)
Definition toggle_key (t : PetFeederAccess) : Z * Z := (_id t, _feeder_id t).

(** The pairs the inner loop appends for pet [p]: one per feeder of the
    pet's household, in order. *)
Definition pairs_for (p : SurepyEntity) (feeders : list SurepyEntity) : list (Z * Z) :=
  (fun f => (Entity.id (base p), Entity.id (base f)))
  <$> filter (fun f => Entity.household_id (base p) = Entity.household_id (base f)) feeders.

(** ** Notions the further properties are stated with *)

(** The entity is of the class that has a [tag_id]. *)
Definition has_tag_id (e : SurepyEntity) : bool :=
  match e with
  | SurePet _ _ => true
  | _ => false
  end.

(** The entity is of the class that has [tags]. *)
Definition has_tags (e : SurepyEntity) : bool :=
  match e with
  | SureFeeder _ _ => true
  | _ => false
  end.

(** The remote side refuses every request; a refresh changes nothing. *)
Definition refusing_env : Env :=
  {| sac_call := fun _ _ => Raise RemoteError;
     request_refresh := fun w => coordinator_data w |}.

(** The remote side accepts every request; after a refresh the feeder
    is gone from the cache. *)
Definition vanishing_env : Env :=
  {| sac_call := fun _ _ => Return (PDict []);
     request_refresh := fun _ => cache_pet_only |}.

(** The remote side accepts every request; after a refresh the feeder
    carries the tags 3 and 9. *)
Definition detaching_env : Env :=
  {| sac_call := fun _ _ => Return (PDict []);
     request_refresh := fun _ => demo_cache [3; 9] |}.

(** Pet 4 of household 10 has the empty string for a name. *)
Definition nameless_pet : Entity.t :=
  {| Entity.id := 4; Entity.household_id := 10; Entity.type := PET;
     Entity.name := Some EmptyString; Entity.raw_data := [] |}.

Definition nameless_cache : Cache :=
  <[4 := EntityEntry (SurePet nameless_pet 8)]> (demo_cache [3; 9]).

Definition nameless_toggle : PetFeederAccess :=
  {| switch :=
       {| _id := 4;
          _surepy_entity := SurePet nameless_pet 8;
          _state := PDict [];
          _name := "Unnamed Pet";
          _attr_available := false;
          _attr_name := "Pet Unnamed Pet Kitchen Access";
          _attr_unique_id := "10-4-2-feeder-access";
          _attr_extra_state_attributes := None |};
     _feeder_id := 2 |}.

(** A feeder whose LCD and RF version records lack the firmware entry. *)
Definition keyless_feeder : Entity.t :=
  {| Entity.id := 5; Entity.household_id := 10; Entity.type := FEEDER;
     Entity.name := Some "Porch";
     Entity.raw_data :=
       [("status",
         PDict [("version",
                 PDict [("lcd", PDict [("hardware", PInt 1)]);
                        ("rf", PDict [("hardware", PInt 2)])])])] |}.

Definition keyless_switch : SurePetcareSwitch :=
  {| _id := 5;
     _surepy_entity := SureFeeder keyless_feeder ∅;
     _state :=
       PDict [("version",
               PDict [("lcd", PDict [("hardware", PInt 1)]);
                      ("rf", PDict [("hardware", PInt 2)])])];
     _name := "Porch";
     _attr_available := true;
     _attr_name := "Feeder Porch";
     _attr_unique_id := "10-5";
     _attr_extra_state_attributes := Some (Entity.raw_data keyless_feeder) |}.

(** A feeder with device, LCD and RF firmware versions. *)
Definition versioned_status : PyVal :=
  PDict [("version",
          PDict [("device", PDict [("firmware", PStr "0.9")]);
                 ("lcd", PDict [("version", PDict [("firmware", PStr "1.2")])]);
                 ("rf", PDict [("firmware", PStr "3.4")])])].

Definition versioned_feeder : Entity.t :=
  {| Entity.id := 6; Entity.household_id := 10; Entity.type := FEEDER;
     Entity.name := Some "hall";
     Entity.raw_data := [("status", versioned_status)] |}.

Definition versioned_switch : SurePetcareSwitch :=
  {| _id := 6;
     _surepy_entity := SureFeeder versioned_feeder ∅;
     _state := versioned_status;
     _name := "hall";
     _attr_available := true;
     _attr_name := "Feeder hall";
     _attr_unique_id := "10-6";
     _attr_extra_state_attributes := Some (Entity.raw_data versioned_feeder) |}.

(** A decimal digit, and a string of decimal digits. *)
Definition is_digit (c : ascii) : bool :=
  let n := N_of_ascii c in ((48 <=? n) && (n <=? 57))%N.

Fixpoint all_digits (s : string) : bool :=
  match s with
  | EmptyString => true
  | String c r => is_digit c && all_digits r
  end.

(** [async_setup_platform]: the platform entry point passes its
    arguments on to [async_setup_entry]. *)
Definition async_setup_platform (data : Cache) : Result (list PetFeederAccess) :=
  async_setup_entry data.

(** * Properties *)

Example py_str_int : py_str (PInt (-42)) = "-42".
Proof. reflexivity. Qed.

Example py_str_dict :
  py_str (PDict [("a", PInt 1); ("b", PList [PStr "x"; PNone])])
  = "{'a': 1, 'b': ['x', None]}".
Proof. reflexivity. Qed.

Example title_feeder_lite : title (replace_underscore "FEEDER_LITE") = "Feeder Lite".
Proof. reflexivity. Qed.


Example demo_toggle_built :
  PetFeederAccess_init (demo_cache [3; 9]) 1 2 = Return demo_toggle.
Proof. vm_compute. reflexivity. Qed.

Example demo_is_off : is_on demo_toggle (demo_cache [3; 9]) = Return off.
Proof. vm_compute. reflexivity. Qed.

Example demo_is_on : is_on demo_toggle (demo_cache [3; 7; 9]) = Return on.
Proof. vm_compute. reflexivity. Qed.

Example demo_setup :
  async_setup_entry (demo_cache [3; 9]) = Return [demo_toggle].
Proof. vm_compute. reflexivity. Qed.

Example demo_turn_on :
  async_turn_on demo_base demo_format converging_env 5 demo_toggle (demo_world [3; 9])
  = Completed demo_toggle
      {| coordinator_data := demo_cache [3; 7; 9];
         events :=
           [Called {| method := PUT;
                      resource := "https://app.api.surehub.io/api/device/2/tag/7";
                      body := Some (PDict []) |};
            Slept 2; Refreshed; Slept 2; Refreshed] |}.
Proof. vm_compute. reflexivity. Qed.

(** ** The query *)

Lemma cache_subscript_Some (data : Cache) k c :
  data !! k = Some c → cache_subscript data k = Return c.
Proof. intros H. unfold cache_subscript. by rewrite H. Qed.

Lemma cache_subscript_None (data : Cache) k :
  data !! k = None → cache_subscript data k = Raise KeyError.
Proof. intros H. unfold cache_subscript. by rewrite H. Qed.

Lemma rbind_Return {A B} (a : A) (k : A → Result B) : (Return a ≫= k) = k a.
Proof. reflexivity. Qed.

Lemma rbind_Raise {A B} e (k : A → Result B) : (Raise e ≫= k) = Raise e.
Proof. reflexivity. Qed.

(** Membership in the set of tag ids, spelled out on the feeder's
    [tags] mapping. *)
Lemma elem_of_tag_ids (tag : Z) (tags : gmap Z Tag.t) :
  tag ∈ tag_ids tags ↔ ∃ k t, tags !! k = Some t ∧ Tag.id t = tag.
Proof.
  unfold tag_ids. rewrite elem_of_list_to_set, list_elem_of_fmap. split.
  - intros (t & -> & Ht). apply list_elem_of_fmap in Ht as ([k t'] & -> & Hkt).
    apply elem_of_map_to_list in Hkt. by exists k, t'.
  - intros (k & t & Hkt & <-). exists t. split; [done |].
    apply list_elem_of_fmap. exists (k, t). split; [done |].
    by apply elem_of_map_to_list.
Qed.

(** With both snapshots in the cache the query computes the membership
    test. *)
Lemma is_on_present (self : PetFeederAccess) (data : Cache) bp tag bf tags :
  data !! _id self = Some (EntityEntry (SurePet bp tag)) →
  data !! _feeder_id self = Some (EntityEntry (SureFeeder bf tags)) →
  is_on self data = Return (Some (bool_decide (tag ∈ tag_ids tags))).
Proof.
  intros Hp Hf. unfold is_on.
  rewrite (cache_subscript_Some _ _ _ Hp), rbind_Return. simpl.
  rewrite (cache_subscript_Some _ _ _ Hf), rbind_Return. reflexivity.
Qed.

(** C1: for a toggle whose pet and feeder snapshots are both in the
    coordinator cache, [is_on] answers with a boolean, and the answer is
    on exactly when the pet's [tag_id] is the [id] of one of the
    feeder's tags. *)
Theorem is_on_iff_tag_member (self : PetFeederAccess) (data : Cache) bp tag bf tags :
  data !! _id self = Some (EntityEntry (SurePet bp tag)) →
  data !! _feeder_id self = Some (EntityEntry (SureFeeder bf tags)) →
  (∃ b : bool, is_on self data = Return (Some b)) ∧
  (is_on self data = Return on ↔ ∃ k t, tags !! k = Some t ∧ Tag.id t = tag) ∧
  (is_on self data = Return off ↔ ¬ ∃ k t, tags !! k = Some t ∧ Tag.id t = tag).
Proof.
  intros Hp Hf. rewrite (is_on_present _ _ _ _ _ _ Hp Hf), <- elem_of_tag_ids.
  split; [eauto |]. split.
  - split.
    + intros [= Hb]. by apply bool_decide_eq_true in Hb.
    + intros Hin. by rewrite bool_decide_eq_true_2.
  - split.
    + intros [= Hb]. by apply bool_decide_eq_false in Hb.
    + intros Hin. by rewrite bool_decide_eq_false_2.
Qed.

Lemma is_on_iff_tag_member_witness :
  (is_on demo_toggle (demo_cache [3; 7; 9]) = Return on
   ↔ ∃ k t, tags_of [3; 7; 9] !! k = Some t ∧ Tag.id t = 7).
Proof.
  apply (is_on_iff_tag_member demo_toggle (demo_cache [3; 7; 9]) tom 7 kitchen
           (tags_of [3; 7; 9])); reflexivity.
Defined.

(** A key that is not in the cache makes the subscript of [is_on]
    raise; a slot that holds [None] gives unknown. *)
Lemma is_on_pet_absent (self : PetFeederAccess) (data : Cache) :
  data !! _id self = None → is_on self data = Raise KeyError.
Proof. intros H. unfold is_on. by rewrite (cache_subscript_None _ _ H). Qed.

Lemma is_on_feeder_absent (self : PetFeederAccess) (data : Cache) e :
  data !! _id self = Some (EntityEntry e) →
  data !! _feeder_id self = None →
  is_on self data = Raise KeyError.
Proof.
  intros Hp Hf. unfold is_on.
  rewrite (cache_subscript_Some _ _ _ Hp), rbind_Return. simpl.
  by rewrite (cache_subscript_None _ _ Hf).
Qed.

Lemma is_on_pet_none (self : PetFeederAccess) (data : Cache) :
  data !! _id self = Some NoneEntry → is_on self data = Return unknown.
Proof. intros H. unfold is_on. by rewrite (cache_subscript_Some _ _ _ H). Qed.

Lemma is_on_feeder_none (self : PetFeederAccess) (data : Cache) e :
  data !! _id self = Some (EntityEntry e) →
  data !! _feeder_id self = Some NoneEntry →
  is_on self data = Return unknown.
Proof.
  intros Hp Hf. unfold is_on.
  rewrite (cache_subscript_Some _ _ _ Hp), rbind_Return. simpl.
  by rewrite (cache_subscript_Some _ _ _ Hf).
Qed.

(** C2: on a cache that lacks the pet, and on a cache that holds the
    pet but lacks the feeder, [is_on] raises [KeyError]; it does not
    answer unknown. *)
Theorem is_on_missing_snapshot_raises :
  is_on demo_toggle ∅ = Raise KeyError ∧
  is_on demo_toggle cache_pet_only = Raise KeyError.
Proof.
  split.
  - apply is_on_pet_absent. reflexivity.
  - apply (is_on_feeder_absent _ _ (SurePet tom 7)); reflexivity.
Qed.

(** ** Construction *)

Lemma switch_init_absent (data : Cache) pid :
  data !! pid = None → SurePetcareSwitch_init data pid = Raise KeyError.
Proof.
  intros H. unfold SurePetcareSwitch_init. by rewrite (cache_subscript_None _ _ H).
Qed.

Lemma switch_init_none (data : Cache) pid :
  data !! pid = Some NoneEntry → SurePetcareSwitch_init data pid = Raise AttributeError.
Proof.
  intros H. unfold SurePetcareSwitch_init. by rewrite (cache_subscript_Some _ _ _ H).
Qed.

Lemma switch_init_entity (data : Cache) pid e :
  data !! pid = Some (EntityEntry e) →
  ∃ s, SurePetcareSwitch_init data pid = Return s ∧
       _id s = pid ∧ _surepy_entity s = e ∧
       _state s = dict_get_default (Entity.raw_data (base e)) "status" (PDict []) ∧
       _attr_available s = truthy (_state s).
Proof.
  intros H. unfold SurePetcareSwitch_init.
  rewrite (cache_subscript_Some _ _ _ H), rbind_Return. eexists. split; [done |].
  by simpl.
Qed.

(** What a successful construction tells about the cache and the object. *)
Lemma toggle_init_Return (data : Cache) pid fid (t : PetFeederAccess) :
  PetFeederAccess_init data pid fid = Return t →
  ∃ p f, data !! pid = Some (EntityEntry p) ∧ data !! fid = Some (EntityEntry f) ∧
         _id t = pid ∧ _feeder_id t = fid ∧ _surepy_entity t = p ∧
         _attr_available t
         = truthy (dict_get_default (Entity.raw_data (base p)) "status" (PDict [])).
Proof.
  unfold PetFeederAccess_init. intros H.
  destruct (data !! pid) as [[|p]|] eqn:Hp.
  - by rewrite (switch_init_none _ _ Hp) in H.
  - destruct (switch_init_entity _ _ _ Hp) as (s & Hs & Hid & He & Hst & Hav).
    rewrite Hs, rbind_Return in H.
    destruct (data !! fid) as [[|f]|] eqn:Hf.
    + by rewrite (cache_subscript_Some _ _ _ Hf) in H.
    + rewrite (cache_subscript_Some _ _ _ Hf) in H. simpl in H.
      injection H as <-. exists p, f. simpl. rewrite Hav, Hst, He. done.
    + by rewrite (cache_subscript_None _ _ Hf) in H.
  - by rewrite (switch_init_absent _ _ Hp) in H.
Qed.

Lemma toggle_init_entities (data : Cache) pid fid p f :
  data !! pid = Some (EntityEntry p) →
  data !! fid = Some (EntityEntry f) →
  ∃ t, PetFeederAccess_init data pid fid = Return t ∧ _id t = pid ∧ _feeder_id t = fid.
Proof.
  intros Hp Hf. unfold PetFeederAccess_init.
  destruct (switch_init_entity _ _ _ Hp) as (s & Hs & Hid & _).
  rewrite Hs, rbind_Return, (cache_subscript_Some _ _ _ Hf), rbind_Return. simpl.
  eexists. split; [done |]. by simpl.
Qed.

(** C10: when the pet id or the feeder id is not a key of the cache,
    the constructor raises and builds no entity.  The exception is
    [KeyError], except that a pet slot holding [None] fails on its first
    attribute with [AttributeError] before the feeder is looked up. *)
Theorem toggle_init_requires_both (data : Cache) pid fid :
  data !! pid = None ∨ data !! fid = None →
  (∀ t, PetFeederAccess_init data pid fid ≠ Return t) ∧
  (PetFeederAccess_init data pid fid = Raise KeyError ∨
   (data !! pid = Some NoneEntry ∧
    PetFeederAccess_init data pid fid = Raise AttributeError)).
Proof.
  intros H. split.
  - intros t Ht. apply toggle_init_Return in Ht as (p & f & Hp & Hf & _).
    destruct H; congruence.
  - unfold PetFeederAccess_init.
    destruct (data !! pid) as [[|p]|] eqn:Hp.
    + right. split; [done |]. by rewrite (switch_init_none _ _ Hp).
    + left. destruct H as [|Hf]; [done |].
      destruct (switch_init_entity _ _ _ Hp) as (s & -> & _).
      by rewrite rbind_Return, (cache_subscript_None _ _ Hf).
    + left. by rewrite (switch_init_absent _ _ Hp).
Qed.

Lemma toggle_init_requires_both_witness :
  PetFeederAccess_init cache_pet_only 1 2 = Raise KeyError ∨
  (cache_pet_only !! 1 = Some NoneEntry ∧
   PetFeederAccess_init cache_pet_only 1 2 = Raise AttributeError).
Proof.
  apply (toggle_init_requires_both cache_pet_only 1 2). right. reflexivity.
Defined.

(** ** The confirm loops *)

Section LoopProperties.

Variable env : Env.
Variable self : PetFeederAccess.

Lemma turn_on_loop_poll_while fuel w :
  turn_on_loop env fuel self w
  = poll_while env (fun a => negb (answer_truthy a)) fuel self w.
Proof.
  revert w. induction fuel as [|n IH]; intros w; simpl;
    destruct (is_on self (coordinator_data w)) as [a|e]; try reflexivity.
  destruct (negb (answer_truthy a)); [apply IH | reflexivity].
Qed.

Lemma turn_off_loop_poll_while fuel w :
  turn_off_loop env fuel self w = poll_while env answer_truthy fuel self w.
Proof.
  revert w. induction fuel as [|n IH]; intros w; simpl;
    destruct (is_on self (coordinator_data w)) as [a|e]; try reflexivity.
  destruct (answer_truthy a); [apply IH | reflexivity].
Qed.

Lemma events_after_polls k w :
  events (after_polls env k w) = events w ++ poll_events k.
Proof.
  revert w. induction k as [|k IH]; intros w; simpl.
  - by rewrite app_nil_r.
  - rewrite IH. simpl. by rewrite <- !app_assoc.
Qed.

Variable continue : option bool → bool.

(** A loop leaves [self] alone and stops after some number of bodies
    within its fuel. *)
Lemma poll_while_world fuel w :
  ∃ k, (k ≤ fuel)%nat ∧
       outcome_world (poll_while env continue fuel self w) = after_polls env k w ∧
       outcome_self (poll_while env continue fuel self w) = self.
Proof.
  revert w. induction fuel as [|n IH]; intros w; simpl.
  - exists O. destruct (is_on self (coordinator_data w)) as [a|e]; [|done].
    by destruct (continue a).
  - destruct (is_on self (coordinator_data w)) as [a|e]; [|by exists O; split; [lia|]].
    destruct (continue a); [|by exists O; split; [lia|]].
    destruct (IH (poll env w)) as (k & Hk & Hw & Hs).
    exists (S k). split; [lia |]. done.
Qed.

(** It returns only on an answer that ends the loop. *)
Lemma poll_while_Completed fuel w s' w' :
  poll_while env continue fuel self w = Completed s' w' →
  s' = self ∧ ∃ a, is_on self (coordinator_data w') = Return a ∧ continue a = false.
Proof.
  revert w. induction fuel as [|n IH]; intros w; simpl;
    destruct (is_on self (coordinator_data w)) as [a|e] eqn:Hq; try done;
    destruct (continue a) eqn:Hc; try done.
  - intros [= <- <-]. eauto.
  - apply IH.
  - intros [= <- <-]. eauto.
Qed.

Lemma poll_while_exit fuel w a :
  is_on self (coordinator_data w) = Return a → continue a = false →
  poll_while env continue fuel self w = Completed self w.
Proof. intros Hq Hc. destruct fuel; simpl; by rewrite Hq, Hc. Qed.

Lemma poll_while_step fuel w a :
  is_on self (coordinator_data w) = Return a → continue a = true →
  poll_while env continue (S fuel) self w = poll_while env continue fuel self (poll env w).
Proof. intros Hq Hc. simpl. by rewrite Hq, Hc. Qed.

Lemma poll_while_Raise fuel w e :
  is_on self (coordinator_data w) = Raise e →
  poll_while env continue fuel self w = Raised e self w.
Proof. intros Hq. destruct fuel; simpl; by rewrite Hq. Qed.

(** Enough fuel reaches the first answer that ends the loop. *)
Lemma poll_while_converges k : ∀ fuel w,
  (∀ j, (j < k)%nat → ∃ a, is_on self (coordinator_data (after_polls env j w)) = Return a
                          ∧ continue a = true) →
  (∃ a, is_on self (coordinator_data (after_polls env k w)) = Return a
        ∧ continue a = false) →
  (k ≤ fuel)%nat →
  poll_while env continue fuel self w = Completed self (after_polls env k w).
Proof.
  induction k as [|k IH]; intros fuel w Hbefore (a & Hq & Hc) Hle.
  - by apply (poll_while_exit _ _ a).
  - destruct fuel as [|n]; [lia |].
    destruct (Hbefore O) as (a0 & Hq0 & Hc0); [lia |].
    rewrite (poll_while_step _ _ a0 Hq0 Hc0). apply IH; [| by exists a | lia].
    intros j Hj. apply (Hbefore (S j)). lia.
Qed.

(** While the answers keep the loop going, the fuel runs out in it. *)
Lemma poll_while_stalled fuel : ∀ w,
  (∀ j, (j ≤ fuel)%nat → ∃ a, is_on self (coordinator_data (after_polls env j w)) = Return a
                             ∧ continue a = true) →
  poll_while env continue fuel self w = Polling self (after_polls env fuel w).
Proof.
  induction fuel as [|n IH]; intros w Hall.
  - destruct (Hall O) as (a & Hq & Hc); [lia |]. simpl in *. by rewrite Hq, Hc.
  - destruct (Hall O) as (a & Hq & Hc); [lia |].
    rewrite (poll_while_step _ _ a Hq Hc). apply IH.
    intros j Hj. apply (Hall (S j)). lia.
Qed.

End LoopProperties.

Lemma continue_on_false a : negb (answer_truthy a) = false ↔ a = on.
Proof. destruct a as [[|]|]; simpl; split; congruence. Qed.

Lemma continue_on_true a : negb (answer_truthy a) = true ↔ a ≠ on.
Proof. destruct a as [[|]|]; simpl; split; congruence. Qed.

Lemma continue_off_false a : answer_truthy a = false ↔ a ≠ on.
Proof. destruct a as [[|]|]; simpl; split; congruence. Qed.

Lemma continue_off_true a : answer_truthy a = true ↔ a = on.
Proof. destruct a as [[|]|]; simpl; split; congruence. Qed.

(** ** The commands *)

Lemma is_on_answer_inv (self : PetFeederAccess) (data : Cache) (b : bool) :
  is_on self data = Return (Some b) →
  ∃ bp tag bf tags,
    data !! _id self = Some (EntityEntry (SurePet bp tag)) ∧
    data !! _feeder_id self = Some (EntityEntry (SureFeeder bf tags)).
Proof.
  unfold is_on, cache_subscript. intros H.
  destruct (data !! _id self) as [[|p]|]; try done. simpl in H.
  destruct (data !! _feeder_id self) as [[|f]|]; try done. simpl in H.
  destruct p as [bp tag|?|?]; try done. destruct f as [?|bf tags|?]; try done.
  by exists bp, tag, bf, tags.
Qed.



Section CommandProperties.

Variable BASE_RESOURCE : string.
Variable DEVICE_TAG_RESOURCE_format : string → Z → Z → string.
Variable env : Env.

Local Abbreviation url := (tag_resource BASE_RESOURCE DEVICE_TAG_RESOURCE_format).
Local Abbreviation turn_on := (async_turn_on BASE_RESOURCE DEVICE_TAG_RESOURCE_format env).
Local Abbreviation turn_off := (async_turn_off BASE_RESOURCE DEVICE_TAG_RESOURCE_format env).

(** With the pet cached, the commands are the request followed by the
    loop. *)
Lemma turn_on_cached fuel (self : PetFeederAccess) w bp tag :
  coordinator_data w !! _id self = Some (EntityEntry (SurePet bp tag)) →
  let put := attach_request (url (_feeder_id self) tag) in
  turn_on fuel self w
  = match sac_call env w put with
    | Raise e => Raised e self (record_event (Called put) w)
    | Return _ => turn_on_loop env fuel self (record_event (Called put) w)
    end.
Proof.
  intros Hp. unfold async_turn_on, _add_tag_to_device. simpl.
  rewrite (cache_subscript_Some _ _ _ Hp). simpl. unfold attach_request.
  by destruct (sac_call env w _).
Qed.

Lemma turn_off_cached fuel (self : PetFeederAccess) w bp tag :
  coordinator_data w !! _id self = Some (EntityEntry (SurePet bp tag)) →
  let del := detach_request (url (_feeder_id self) tag) in
  turn_off fuel self w
  = match sac_call env w del with
    | Raise e => Raised e self (record_event (Called del) w)
    | Return _ => turn_off_loop env fuel self (record_event (Called del) w)
    end.
Proof.
  intros Hp. unfold async_turn_off, _remove_tag_from_device. simpl.
  rewrite (cache_subscript_Some _ _ _ Hp). simpl. unfold detach_request.
  by destruct (sac_call env w _).
Qed.

(** No command assigns to [self]. *)
Lemma turn_on_keeps_self fuel (self : PetFeederAccess) w :
  outcome_self (turn_on fuel self w) = self.
Proof.
  unfold async_turn_on, _add_tag_to_device.
  destruct (cache_subscript _ _) as [pet|]; [|done].
  destruct (entry_tag_id pet) as [tag|]; [|done].
  destruct (sac_call env w _); [|done].
  rewrite turn_on_loop_poll_while.
  match goal with
  | |- outcome_self (poll_while ?e ?c ?f ?s ?w0) = _ =>
      by destruct (poll_while_world e s c f w0) as (k & _ & _ & ->)
  end.
Qed.

Lemma turn_off_keeps_self fuel (self : PetFeederAccess) w :
  outcome_self (turn_off fuel self w) = self.
Proof.
  unfold async_turn_off, _remove_tag_from_device.
  destruct (cache_subscript _ _) as [pet|]; [|done].
  destruct (entry_tag_id pet) as [tag|]; [|done].
  destruct (sac_call env w _); [|done].
  rewrite turn_off_loop_poll_while.
  match goal with
  | |- outcome_self (poll_while ?e ?c ?f ?s ?w0) = _ =>
      by destruct (poll_while_world e s c f w0) as (k & _ & _ & ->)
  end.
Qed.

(** C3: with the pet cached, an enable command sends one request, the
    PUT for the pet's cached [tag_id] on the feeder's device id, as its
    first event; whatever follows is sleeps and refreshes of the confirm
    loop, never a second request.  It returns only in a world where the
    query answers on, and it does return, given fuel for [k] loop bodies,
    when the PUT is accepted and the query first answers on after [k]
    refreshes. *)
Theorem turn_on_issues_one_put fuel (self : PetFeederAccess) w bp tag :
  coordinator_data w !! _id self = Some (EntityEntry (SurePet bp tag)) →
  let put := attach_request (url (_feeder_id self) tag) in
  let w1 := record_event (Called put) w in
  (∃ k, (k ≤ fuel)%nat ∧
        events (outcome_world (turn_on fuel self w))
        = events w ++ Called put :: poll_events k) ∧
  (∀ s' w', turn_on fuel self w = Completed s' w' →
            is_on self (coordinator_data w') = Return on) ∧
  (∀ k, accepted env w put →
        (∀ j, (j < k)%nat →
              ∃ a, is_on self (coordinator_data (after_polls env j w1)) = Return a
                   ∧ a ≠ on) →
        is_on self (coordinator_data (after_polls env k w1)) = Return on →
        (k ≤ fuel)%nat →
        turn_on fuel self w = Completed self (after_polls env k w1)).
Proof.
  intros Hp put w1. rewrite (turn_on_cached fuel self w bp tag Hp). fold put w1.
  rewrite turn_on_loop_poll_while. split; [|split].
  - destruct (sac_call env w put) as [r|e].
    + destruct (poll_while_world env self (fun a => negb (answer_truthy a)) fuel w1)
        as (k & Hk & -> & _).
      exists k. split; [done |]. rewrite events_after_polls. simpl.
      by rewrite <- app_assoc.
    + exists O. split; [lia | done].
  - intros s' w' H. destruct (sac_call env w put) as [r|e]; [|done].
    apply poll_while_Completed in H as (_ & a & Hq & Hc).
    apply continue_on_false in Hc. by subst a.
  - intros k [r Hr] Hbefore Hon Hle. rewrite Hr.
    apply poll_while_converges; [| |done].
    + intros j Hj. destruct (Hbefore j Hj) as (a & Hq & Ha).
      exists a. split; [done |]. by apply continue_on_true.
    + exists on. by split.
Qed.


(** C5: if after no number of refreshes the query answers on (it keeps
    answering off or unknown), the confirm loop of the enable command
    does not return on any fuel: after every body it evaluates the query
    again and runs the next body, and after [fuel] bodies it is still
    polling, having slept two seconds and refreshed once per body. *)
Theorem turn_on_loop_never_returns_while_stalled (self : PetFeederAccess) w :
  (∀ j, ∃ a, is_on self (coordinator_data (after_polls env j w)) = Return a ∧ a ≠ on) →
  ∀ fuel,
    turn_on_loop env fuel self w = Polling self (after_polls env fuel w) ∧
    events (after_polls env fuel w) = events w ++ poll_events fuel ∧
    (∀ s' w', turn_on_loop env fuel self w ≠ Completed s' w') ∧
    turn_on_loop env (S fuel) self w = turn_on_loop env fuel self (poll env w).
Proof.
  intros Hstall fuel.
  assert (Hloop : ∀ n, turn_on_loop env n self w = Polling self (after_polls env n w)).
  { intros n. rewrite turn_on_loop_poll_while. apply poll_while_stalled.
    intros j _. destruct (Hstall j) as (a & Hq & Ha).
    exists a. split; [done |]. by apply continue_on_true. }
  split; [apply Hloop |]. split; [apply events_after_polls |]. split.
  - intros s' w'. by rewrite Hloop.
  - destruct (Hstall O) as (a & Hq & Ha). rewrite !turn_on_loop_poll_while.
    apply (poll_while_step _ _ _ _ _ a); [done |]. by apply continue_on_true.
Qed.

(** C6: when the remote side accepts the request, enabling a toggle
    that is on returns without running a loop body, the PUT being the
    only event, and leaves the query on; disabling a toggle that is off
    does the same with the DELETE and leaves the query off. *)
Theorem commands_idempotent fuel (self : PetFeederAccess) w :
  (∀ r, accepted env w r) →
  (is_on self (coordinator_data w) = Return on →
   ∃ w' r, turn_on fuel self w = Completed self w' ∧
           method r = PUT ∧ events w' = events w ++ [Called r] ∧
           coordinator_data w' = coordinator_data w ∧
           is_on self (coordinator_data w') = Return on) ∧
  (is_on self (coordinator_data w) = Return off →
   ∃ w' r, turn_off fuel self w = Completed self w' ∧
           method r = DELETE ∧ events w' = events w ++ [Called r] ∧
           coordinator_data w' = coordinator_data w ∧
           is_on self (coordinator_data w') = Return off).
Proof.
  intros Hok. split; intros Hq.
  - destruct (is_on_answer_inv _ _ _ Hq) as (bp & tag & _ & _ & Hp & _).
    set (put := attach_request (url (_feeder_id self) tag)).
    exists (record_event (Called put) w), put.
    rewrite (turn_on_cached fuel self w bp tag Hp). fold put.
    destruct (Hok put) as [resp ->]. rewrite turn_on_loop_poll_while.
    split; [|done]. by apply (poll_while_exit _ _ _ _ _ on).
  - destruct (is_on_answer_inv _ _ _ Hq) as (bp & tag & _ & _ & Hp & _).
    set (del := detach_request (url (_feeder_id self) tag)).
    exists (record_event (Called del) w), del.
    rewrite (turn_off_cached fuel self w bp tag Hp). fold del.
    destruct (Hok del) as [resp ->]. rewrite turn_off_loop_poll_while.
    split; [|done]. by apply (poll_while_exit _ _ _ _ _ off).
Qed.

(** C9: the availability flag of a constructed toggle is the truth
    value of the entity's raw "status" at construction: for a status
    record, true exactly when the record is not empty, and false when
    there is no status.  No command changes the object it is called on,
    so the flag stays as constructed; the query only reads. *)
Theorem available_fixed_at_construction (data : Cache) pid fid (t : PetFeederAccess) :
  PetFeederAccess_init data pid fid = Return t →
  ∃ p, data !! pid = Some (EntityEntry p) ∧
    _attr_available t
    = truthy (dict_get_default (Entity.raw_data (base p)) "status" (PDict [])) ∧
    (∀ d, dict_lookup (Entity.raw_data (base p)) "status" = Some (PDict d) →
          (_attr_available t = true ↔ d ≠ [])) ∧
    (dict_lookup (Entity.raw_data (base p)) "status" = None →
     _attr_available t = false) ∧
    (∀ fuel w,
       _attr_available (outcome_self (turn_on fuel t w)) = _attr_available t ∧
       _attr_available (outcome_self (turn_off fuel t w)) = _attr_available t).
Proof.
  intros H. apply toggle_init_Return in H as (p & f & Hp & _ & _ & _ & _ & Hav).
  exists p. split; [done |]. split; [done |]. rewrite Hav. unfold dict_get_default.
  split; [|split].
  - intros d ->. simpl. destruct d; split; congruence.
  - by intros ->.
  - intros fuel w. by rewrite turn_on_keeps_self, turn_off_keeps_self.
Qed.

End CommandProperties.

Lemma stalled_env_keeps_cache j w :
  coordinator_data (after_polls stalled_env j w) = coordinator_data w.
Proof. revert w. induction j as [|j IH]; intros w; [done |]. simpl. by rewrite IH. Qed.

Lemma turn_on_issues_one_put_witness :
  coordinator_data (demo_world [3; 9]) !! 1 = Some (EntityEntry (SurePet tom 7)) ∧
  ∃ k, (k ≤ 5)%nat ∧
       events (outcome_world
                 (async_turn_on demo_base demo_format converging_env 5 demo_toggle
                    (demo_world [3; 9])))
       = Called (attach_request (demo_format demo_base 2 7)) :: poll_events k.
Proof.
  split; [reflexivity |].
  exact (proj1 (turn_on_issues_one_put demo_base demo_format converging_env 5
                  demo_toggle (demo_world [3; 9]) tom 7 eq_refl)).
Defined.




Lemma turn_on_loop_never_returns_while_stalled_witness :
  turn_on_loop stalled_env 4 demo_toggle (demo_world [3; 9])
  = Polling demo_toggle (after_polls stalled_env 4 (demo_world [3; 9])).
Proof.
  refine (proj1 (turn_on_loop_never_returns_while_stalled stalled_env demo_toggle
                   (demo_world [3; 9]) _ 4%nat)).
  intros j. exists off. rewrite stalled_env_keeps_cache.
  split; [vm_compute; reflexivity | discriminate].
Defined.

Lemma commands_idempotent_witness :
  (∃ w' r,
     async_turn_on demo_base demo_format stalled_env 0 demo_toggle (demo_world [3; 7; 9])
     = Completed demo_toggle w' ∧
     method r = PUT ∧ events w' = [Called r] ∧
     coordinator_data w' = demo_cache [3; 7; 9] ∧
     is_on demo_toggle (coordinator_data w') = Return on) ∧
  (∃ w' r,
     async_turn_off demo_base demo_format stalled_env 0 demo_toggle (demo_world [3; 9])
     = Completed demo_toggle w' ∧
     method r = DELETE ∧ events w' = [Called r] ∧
     coordinator_data w' = demo_cache [3; 9] ∧
     is_on demo_toggle (coordinator_data w') = Return off).
Proof.
  split.
  - refine (proj1 (commands_idempotent demo_base demo_format stalled_env 0 demo_toggle
                     (demo_world [3; 7; 9]) _) _).
    + intros r. by exists (PDict []).
    + vm_compute. reflexivity.
  - refine (proj2 (commands_idempotent demo_base demo_format stalled_env 0 demo_toggle
                     (demo_world [3; 9]) _) _).
    + intros r. by exists (PDict []).
    + vm_compute. reflexivity.
Defined.

Lemma available_fixed_at_construction_witness :
  PetFeederAccess_init (demo_cache [3; 9]) 1 2 = Return demo_toggle ∧
  ∃ p, demo_cache [3; 9] !! 1 = Some (EntityEntry p) ∧
       _attr_available demo_toggle
       = truthy (dict_get_default (Entity.raw_data (base p)) "status" (PDict [])).
Proof.
  split; [vm_compute; reflexivity |].
  destruct (available_fixed_at_construction demo_base demo_format stalled_env
              (demo_cache [3; 9]) 1 2 demo_toggle) as (p & Hp & Hav & _).
  - vm_compute. reflexivity.
  - exists p. by split.
Defined.

(** ** Device information *)

Example kitchen_switch_built :
  SurePetcareSwitch_init (demo_cache [3; 9]) 2 = Return kitchen_switch.
Proof. vm_compute. reflexivity. Qed.

Example nameless_switch_built :
  SurePetcareSwitch_init (<[3 := EntityEntry (SureDevice nameless_hub)]> ∅) 3
  = Return nameless_switch.
Proof. vm_compute. reflexivity. Qed.

Example nameless_device_info :
  device_info "sureha" "Sure Petcare" nameless_switch = Return ∅.
Proof. reflexivity. Qed.

Example kitchen_model :
  device_model (base (_surepy_entity kitchen_switch)) = "Feeder (A1)".
Proof. reflexivity. Qed.

(** C8, as stated, fails: the version strings of the feeder have no
    [get], the [AttributeError] is swallowed, and what [device_info]
    returns is the record assigned before, not an empty one. *)
Lemma device_info_keeps_record_after_attribute_error :
  (device_info_try "sureha" "Sure Petcare" kitchen_switch ∅).1 = Raise AttributeError ∧
  device_info "sureha" "Sure Petcare" kitchen_switch
  = Return (base_device "sureha" "Sure Petcare" kitchen_switch "Kitchen") ∧
  base_device "sureha" "Sure Petcare" kitchen_switch "Kitchen" !! "model"
  = Some (Info (PStr "Feeder (A1)")) ∧
  base_device "sureha" "Sure Petcare" kitchen_switch "Kitchen" ≠ ∅.
Proof.
  split; [reflexivity |]. split; [reflexivity |]. split; [reflexivity |].
  intros H. apply (f_equal (fun m => m !! "model")) in H. discriminate H.
Qed.

Section DeviceInfoProperties.

Variable DOMAIN : string.
Variable SURE_MANUFACTURER : string.

Local Abbreviation info := (device_info DOMAIN SURE_MANUFACTURER).
Local Abbreviation try_block := (device_info_try DOMAIN SURE_MANUFACTURER).
Local Abbreviation record_of := (base_device DOMAIN SURE_MANUFACTURER).

(** An [AttributeError] never leaves [device_info]. *)
Lemma device_info_no_attribute_error (self : SurePetcareSwitch) :
  info self ≠ Raise AttributeError.
Proof.
  unfold device_info. destruct (try_block self ∅) as [[u|e] d]; [done |].
  by destruct e.
Qed.

(** A name of [None] stops the block before [device] is assigned. *)
Lemma try_block_nameless (self : SurePetcareSwitch) :
  Entity.name (base (_surepy_entity self)) = None →
  try_block self ∅ = (Raise AttributeError, ∅).
Proof. intros H. unfold device_info_try. rewrite H. reflexivity. Qed.

(** After the assignment, [device] holds the record, with or without
    a firmware version stored on top, however the block ends. *)
Lemma try_block_named (self : SurePetcareSwitch) n r device :
  Entity.name (base (_surepy_entity self)) = Some n →
  try_block self ∅ = (r, device) →
  device = record_of self (capitalize n) ∨
  ∃ fw, device = <["sw_version" := Info fw]> (record_of self (capitalize n)).
Proof.
  intros Hn. unfold device_info_try. rewrite Hn.
  unfold mbind, Try_bind, mret, Try_ret, eval, assign, setitem. simpl.
  intros H.
  repeat (match type of H with
          | context [truthy ?v] => destruct (truthy v) eqn:?
          | context [match ?x with _ => _ end] => destruct x eqn:?
          end; simpl in H); simplify_eq; eauto;
    rewrite ?insert_insert_eq; eauto.
Qed.

(** C8, as amended: an [AttributeError] raised inside the [try] block is
    swallowed, and [device_info] returns the value of [device] at that
    point: the empty record when the failure comes before the
    assignment (the entity's name is [None]), and otherwise the record
    already assigned, with the device firmware version if that had been
    stored. *)
Theorem device_info_swallows_attribute_error (self : SurePetcareSwitch) device :
  try_block self ∅ = (Raise AttributeError, device) →
  info self ≠ Raise AttributeError ∧
  info self = Return device ∧
  (Entity.name (base (_surepy_entity self)) = None → device = ∅) ∧
  (∀ n, Entity.name (base (_surepy_entity self)) = Some n →
        device = record_of self (capitalize n) ∨
        ∃ fw, device = <["sw_version" := Info fw]> (record_of self (capitalize n))).
Proof.
  intros H. split; [apply device_info_no_attribute_error |]. split; [|split].
  - unfold device_info. by rewrite H.
  - intros Hn. rewrite (try_block_nameless self Hn) in H. congruence.
  - intros n Hn. by apply (try_block_named self n _ _ Hn H).
Qed.

End DeviceInfoProperties.

Lemma device_info_swallows_attribute_error_witness :
  device_info_try "sureha" "Sure Petcare" kitchen_switch ∅
  = (Raise AttributeError, base_device "sureha" "Sure Petcare" kitchen_switch "Kitchen") ∧
  device_info "sureha" "Sure Petcare" kitchen_switch
  = Return (base_device "sureha" "Sure Petcare" kitchen_switch "Kitchen").
Proof.
  split; [reflexivity |].
  exact (proj1 (proj2 (device_info_swallows_attribute_error "sureha" "Sure Petcare"
                         kitchen_switch _ eq_refl))).
Defined.

(** ** Enumeration *)

Lemma select_type_entities t (ents : list SurepyEntity) :
  select_type t (EntityEntry <$> ents)
  = Return (filter (fun e => Entity.type (base e) = t) ents).
Proof.
  induction ents as [|e r IH]; [reflexivity |].
  rewrite fmap_cons. cbn [select_type]. rewrite IH, rbind_Return.
  destruct (decide (Entity.type (base e) = t)) as [Ht|Ht].
  - by rewrite filter_cons_True.
  - by rewrite filter_cons_False.
Qed.

(** A well-formed cache lists its entities, each under its own id. *)
Lemma wf_entries (l : list (Z * CacheEntry)) :
  Forall (fun kc => ∃ e, kc.2 = EntityEntry e ∧ Entity.id (base e) = kc.1) l →
  ∃ ents, l = (fun e => (Entity.id (base e), EntityEntry e)) <$> ents.
Proof.
  induction 1 as [|[k c] l (e & Hc & Hk) _ (ents & ->)]; [by exists [] |].
  simpl in *. subst. by exists (e :: ents).
Qed.

Lemma cache_wf_entities (data : Cache) :
  cache_wf data →
  ∃ ents,
    (map_to_list data).*2 = EntityEntry <$> ents ∧
    NoDup ents ∧
    (∀ e, e ∈ ents ↔ data !! Entity.id (base e) = Some (EntityEntry e)).
Proof.
  intros Hwf. destruct (wf_entries (map_to_list data)) as [ents Hl].
  { apply Forall_forall. intros [k c] Hin. apply elem_of_map_to_list in Hin.
    by apply Hwf in Hin. }
  exists ents. split; [|split].
  - rewrite Hl, <- list_fmap_compose. reflexivity.
  - pose proof (NoDup_fst_map_to_list data) as Hnd.
    rewrite Hl, <- list_fmap_compose in Hnd. by apply NoDup_fmap_1 in Hnd.
  - intros e. split.
    + intros He. apply elem_of_map_to_list. rewrite Hl.
      by apply (list_elem_of_fmap_2 (fun e => (Entity.id (base e), EntityEntry e))).
    + intros He. apply elem_of_map_to_list in He. rewrite Hl in He.
      apply list_elem_of_fmap in He as (e' & [= _ ->] & He'). done.
Qed.

Section Enumeration.

Variable data : Cache.
Variable ents : list SurepyEntity.
Hypothesis ents_cached :
  ∀ e, e ∈ ents → data !! Entity.id (base e) = Some (EntityEntry e).

Lemma for_feeders_spec p feeders : ∀ entities,
  p ∈ ents → (∀ f, f ∈ feeders → f ∈ ents) →
  ∃ l, for_feeders data p feeders entities = Return (entities ++ l) ∧
       toggle_key <$> l = pairs_for p feeders ∧
       Forall (fun t : PetFeederAccess =>
                 PetFeederAccess_init data (_id t) (_feeder_id t) = Return t) l.
Proof.
  induction feeders as [|f r IH]; intros entities Hp Hsub; simpl.
  - exists []. by rewrite app_nil_r.
  - assert (Hr : ∀ f', f' ∈ r → f' ∈ ents) by (intros f' Hf'; apply Hsub; by right).
    unfold pairs_for.
    destruct (decide (Entity.household_id (base p) ≠ Entity.household_id (base f)))
      as [Hne|Heq].
    + destruct (IH entities Hp Hr) as (l & -> & Hk & Hb). exists l.
      split; [done |]. split; [|done]. by rewrite filter_cons_False.
    + apply dec_stable in Heq.
      destruct (toggle_init_entities data _ _ p f (ents_cached p Hp)
                  (ents_cached f (Hsub f ltac:(by left)))) as (t & Ht & Hid & Hfid).
      rewrite Ht, rbind_Return.
      destruct (IH (entities ++ [t]) Hp Hr) as (l & -> & Hk & Hb). exists (t :: l).
      split; [by rewrite <- app_assoc |]. split.
      * rewrite filter_cons_True by done. simpl. unfold toggle_key at 1.
        rewrite Hid, Hfid. f_equal. exact Hk.
      * constructor; [by rewrite Hid, Hfid | done].
Qed.

Lemma for_pets_spec feeders pets : ∀ entities,
  (∀ p, p ∈ pets → p ∈ ents) → (∀ f, f ∈ feeders → f ∈ ents) →
  ∃ l, for_pets data pets feeders entities = Return (entities ++ l) ∧
       toggle_key <$> l = pets ≫= (fun p => pairs_for p feeders) ∧
       Forall (fun t : PetFeederAccess =>
                 PetFeederAccess_init data (_id t) (_feeder_id t) = Return t) l.
Proof.
  induction pets as [|p r IH]; intros entities Hps Hfs; simpl.
  - exists []. by rewrite app_nil_r.
  - destruct (for_feeders_spec p feeders entities (Hps p ltac:(by left)) Hfs)
      as (l1 & -> & Hk1 & Hb1).
    rewrite rbind_Return.
    destruct (IH (entities ++ l1)) as (l2 & -> & Hk2 & Hb2); [|done|].
    { intros p' Hp'. apply Hps. by right. }
    exists (l1 ++ l2). split; [by rewrite <- app_assoc |]. split.
    + by rewrite fmap_app, Hk1, Hk2.
    + by apply Forall_app.
Qed.

End Enumeration.

(** C7: on a cache that holds every entity under its own id,
    [async_setup_entry] returns a list of toggles in which no (pet id,
    feeder id) pair occurs twice, every toggle is the one the
    constructor builds for its pair, and a pair occurs exactly when the
    cache holds a PET under the first id and a FEEDER under the second
    with equal household ids. *)
Theorem setup_one_toggle_per_household_pair (data : Cache) :
  cache_wf data →
  ∃ entities,
    async_setup_entry data = Return entities ∧
    NoDup (toggle_key <$> entities) ∧
    (∀ t : PetFeederAccess,
       t ∈ entities → PetFeederAccess_init data (_id t) (_feeder_id t) = Return t) ∧
    (∀ pid fid,
       (pid, fid) ∈ toggle_key <$> entities ↔
       ∃ p f, data !! pid = Some (EntityEntry p) ∧ data !! fid = Some (EntityEntry f) ∧
              Entity.type (base p) = PET ∧ Entity.type (base f) = FEEDER ∧
              Entity.household_id (base p) = Entity.household_id (base f)).
Proof.
  intros Hwf. destruct (cache_wf_entities data Hwf) as (ents & Hvals & Hnd & Hin).
  assert (Hcached : ∀ e, e ∈ ents → data !! Entity.id (base e) = Some (EntityEntry e))
    by (intros e; apply Hin).
  assert (Hinj : ∀ e1 e2, e1 ∈ ents → e2 ∈ ents →
                          Entity.id (base e1) = Entity.id (base e2) → e1 = e2).
  { intros e1 e2 H1 H2 Heq. apply Hcached in H1, H2. rewrite Heq in H1. congruence. }
  set (pets := filter (fun e => Entity.type (base e) = PET) ents).
  set (feeders := filter (fun e => Entity.type (base e) = FEEDER) ents).
  assert (Hpets : ∀ p, p ∈ pets → p ∈ ents)
    by (intros p Hp; by apply list_elem_of_filter in Hp as [_ ?]).
  assert (Hfeeders : ∀ f, f ∈ feeders → f ∈ ents)
    by (intros f Hf; by apply list_elem_of_filter in Hf as [_ ?]).
  destruct (for_pets_spec data ents Hcached feeders pets [] Hpets Hfeeders)
    as (l & Hrun & Hkeys & Hbuilt).
  exists l. split; [|split; [|split]].
  - unfold async_setup_entry. rewrite Hvals, !select_type_entities, !rbind_Return.
    exact Hrun.
  - rewrite Hkeys. apply NoDup_bind.
    + intros p1 p2 [a b] Hp1 Hp2 H1 H2. unfold pairs_for in H1, H2.
      apply list_elem_of_fmap in H1 as (f1 & [= -> ->] & _).
      apply list_elem_of_fmap in H2 as (f2 & [= Hid _] & _).
      apply Hinj; auto.
    + intros p Hp. unfold pairs_for. apply NoDup_fmap_2_strong.
      * intros f1 f2 Hf1 Hf2 [= Hid].
        apply list_elem_of_filter in Hf1 as [_ Hf1], Hf2 as [_ Hf2]. apply Hinj; auto.
      * apply NoDup_filter. by apply NoDup_filter.
    + by apply NoDup_filter.
  - intros t Ht. by apply (proj1 (Forall_forall _ _) Hbuilt).
  - intros pid fid. rewrite Hkeys, list_elem_of_bind. split.
    + intros (p & Hpair & Hp). unfold pairs_for in Hpair.
      apply list_elem_of_fmap in Hpair as (f & [= -> ->] & Hf).
      apply list_elem_of_filter in Hf as [Hhh Hf].
      apply list_elem_of_filter in Hp as [Htp Hp], Hf as [Htf Hf].
      exists p, f. auto 10.
    + intros (p & f & Hp & Hf & Htp & Htf & Hhh).
      destruct (Hwf _ _ Hp) as (p' & [= <-] & <-).
      destruct (Hwf _ _ Hf) as (f' & [= <-] & <-).
      apply Hin in Hp, Hf. exists p. split.
      * unfold pairs_for.
        apply (list_elem_of_fmap_2 (fun f => (Entity.id (base p), Entity.id (base f)))).
        apply list_elem_of_filter. split; [done |]. by apply list_elem_of_filter.
      * by apply list_elem_of_filter.
Qed.

Lemma demo_cache_wf : cache_wf (demo_cache [3; 9]).
Proof.
  intros k c. unfold demo_cache. rewrite !lookup_insert.
  repeat case_decide; subst; [| |by rewrite lookup_empty].
  - intros [= <-]. by eexists.
  - intros [= <-]. by eexists.
Qed.

Lemma setup_one_toggle_per_household_pair_witness :
  ∃ entities,
    async_setup_entry (demo_cache [3; 9]) = Return entities ∧
    NoDup (toggle_key <$> entities) ∧
    (1, 2) ∈ toggle_key <$> entities.
Proof.
  destruct (setup_one_toggle_per_household_pair (demo_cache [3; 9]) demo_cache_wf)
    as (entities & Hrun & Hnd & _ & Hpairs).
  exists entities. split; [done |]. split; [done |].
  apply Hpairs. exists (SurePet tom 7), (SureFeeder kitchen (tags_of [3; 9])).
  by repeat split.
Defined.

(** * Further properties of the code *)

(** ** The query, case by case *)

(** X1: [is_on] answers unknown exactly when the pet slot holds [None],
    or the pet slot holds an entity and the feeder slot holds [None]. *)
Theorem is_on_unknown_iff (self : PetFeederAccess) (data : Cache) :
  is_on self data = Return unknown ↔
  data !! _id self = Some NoneEntry ∨
  ((∃ e, data !! _id self = Some (EntityEntry e)) ∧
   data !! _feeder_id self = Some NoneEntry).
Proof.
  unfold is_on, cache_subscript.
  destruct (data !! _id self) as [[|p]|]; simpl.
  - split; [by left | done].
  - destruct (data !! _feeder_id self) as [[|f]|]; simpl.
    + split; [intros _; right; eauto | done].
    + split.
      * destruct p, f; simpl; discriminate.
      * intros [[=] | [_ [=]]].
    + split; [done | intros [[=] | [_ [=]]]].
  - split; [done | intros [[=] | [[e [=]] _]]].
Qed.

(** X2: [is_on] raises in two ways only.  It raises [KeyError] exactly
    when the pet id is no key of the cache, or the pet slot holds an
    entity and the feeder id is no key; it raises [AttributeError]
    exactly when both slots hold entities and the pet's has no [tag_id]
    or the feeder's has no [tags]. *)
Theorem is_on_raises_iff (self : PetFeederAccess) (data : Cache) (err : PyErr) :
  is_on self data = Raise err ↔
  (err = KeyError ∧
   (data !! _id self = None ∨
    ((∃ e, data !! _id self = Some (EntityEntry e)) ∧ data !! _feeder_id self = None))) ∨
  (err = AttributeError ∧
   ∃ p f, data !! _id self = Some (EntityEntry p) ∧
          data !! _feeder_id self = Some (EntityEntry f) ∧
          (has_tag_id p = false ∨ has_tags f = false)).
Proof.
  unfold is_on, cache_subscript.
  destruct (data !! _id self) as [[|p]|]; simpl.
  - split; [done |]. intros [[_ [[=] | [[e [=]] _]]] | [_ (p & f & [=] & _)]].
  - destruct (data !! _feeder_id self) as [[|f]|]; simpl.
    + split; [done |]. intros [[_ [[=] | [_ [=]]]] | [_ (p' & f' & _ & [=] & _)]].
    + split.
      * destruct p, f; simpl; intros [= <-];
          right; (split; [done |]); eexists _, _; (split; [done |]); (split; [done |]);
          simpl; auto.
      * intros [[_ [[=] | [_ [=]]]] | [-> (p' & f' & [= <-] & [= <-] & Hc)]].
        destruct p, f; simpl in *; try done;
          destruct Hc; done.
    + split.
      * intros [= <-]. left. split; [done |]. right. eauto.
      * intros [[-> _] | [_ (p' & f' & _ & [=] & _)]]. done.
  - split.
    + intros [= <-]. left. auto.
    + intros [[-> _] | [_ (p' & f' & [=] & _)]]. done.
Qed.

(** ** The commands: failures and the disable loop *)

Section CommandErrors.

Variable BASE_RESOURCE : string.
Variable DEVICE_TAG_RESOURCE_format : string → Z → Z → string.
Variable env : Env.

Local Abbreviation url := (tag_resource BASE_RESOURCE DEVICE_TAG_RESOURCE_format).
Local Abbreviation turn_on := (async_turn_on BASE_RESOURCE DEVICE_TAG_RESOURCE_format env).
Local Abbreviation turn_off := (async_turn_off BASE_RESOURCE DEVICE_TAG_RESOURCE_format env).

(** X3: a command that cannot read the pet's [tag_id] from the cache
    ends at once with an exception and leaves the world as it found it:
    no request is sent, nothing is slept or refreshed.  The exception is
    [KeyError] when the pet id is no key of the cache and
    [AttributeError] when the slot holds [None] or an entity without a
    [tag_id]. *)
Theorem commands_without_pet_send_nothing fuel (self : PetFeederAccess) w :
  (∀ bp tag, coordinator_data w !! _id self ≠ Some (EntityEntry (SurePet bp tag))) →
  ∃ err,
    turn_on fuel self w = Raised err self w ∧
    turn_off fuel self w = Raised err self w ∧
    (coordinator_data w !! _id self = None → err = KeyError) ∧
    (is_Some (coordinator_data w !! _id self) → err = AttributeError).
Proof.
  intros Hno. unfold async_turn_on, async_turn_off, cache_subscript.
  destruct (coordinator_data w !! _id self) as [[|[bp tag|bf tags|b]]|] eqn:Hp; simpl.
  - exists AttributeError. by split; [|split; [|split]].
  - by destruct (Hno bp tag).
  - exists AttributeError. by split; [|split; [|split]].
  - exists AttributeError. by split; [|split; [|split]].
  - exists KeyError. split; [done |]. split; [done |]. split; [done |].
    by intros [? ?].
Qed.

(** X4: an exception of the remote client leaves the command as it is,
    right after the request: the request is the only event and no loop
    body runs, whatever the fuel. *)
Theorem remote_failure_ends_command fuel (self : PetFeederAccess) w bp tag err :
  coordinator_data w !! _id self = Some (EntityEntry (SurePet bp tag)) →
  let put := attach_request (url (_feeder_id self) tag) in
  let del := detach_request (url (_feeder_id self) tag) in
  (sac_call env w put = Raise err →
   turn_on fuel self w = Raised err self (record_event (Called put) w)) ∧
  (sac_call env w del = Raise err →
   turn_off fuel self w = Raised err self (record_event (Called del) w)).
Proof.
  intros Hp put del. split; intros Hcall.
  - rewrite (turn_on_cached _ _ _ fuel self w bp tag Hp). fold put. by rewrite Hcall.
  - rewrite (turn_off_cached _ _ _ fuel self w bp tag Hp). fold del. by rewrite Hcall.
Qed.

(** A loop ends with the exception of the first query that raises. *)
Lemma poll_while_aborts (self : PetFeederAccess) continue k : ∀ fuel w err,
  (∀ j, (j < k)%nat →
        ∃ a, is_on self (coordinator_data (after_polls env j w)) = Return a
             ∧ continue a = true) →
  is_on self (coordinator_data (after_polls env k w)) = Raise err →
  (k ≤ fuel)%nat →
  poll_while env continue fuel self w = Raised err self (after_polls env k w).
Proof.
  induction k as [|k IH]; intros fuel w err Hbefore Hq Hle.
  - by apply poll_while_Raise.
  - destruct fuel as [|n]; [lia |].
    destruct (Hbefore O) as (a0 & Hq0 & Hc0); [lia |].
    rewrite (poll_while_step _ _ _ _ _ a0 Hq0 Hc0). apply IH; [| done | lia].
    intros j Hj. apply (Hbefore (S j)). lia.
Qed.

(** X5: when the query raises at its evaluation after [k] refreshes,
    the loops having run until then, either confirm loop ends there with
    that exception, after exactly [k] bodies. *)
Theorem loops_end_when_query_raises k fuel (self : PetFeederAccess) w err :
  is_on self (coordinator_data (after_polls env k w)) = Raise err →
  (k ≤ fuel)%nat →
  ((∀ j, (j < k)%nat →
         ∃ a, is_on self (coordinator_data (after_polls env j w)) = Return a ∧ a ≠ on) →
   turn_on_loop env fuel self w = Raised err self (after_polls env k w)) ∧
  ((∀ j, (j < k)%nat →
         is_on self (coordinator_data (after_polls env j w)) = Return on) →
   turn_off_loop env fuel self w = Raised err self (after_polls env k w)).
Proof.
  intros Hq Hle. split; intros Hbefore.
  - rewrite turn_on_loop_poll_while. apply poll_while_aborts; [| done | done].
    intros j Hj. destruct (Hbefore j Hj) as (a & Ha & Hne).
    exists a. split; [done |]. by apply continue_on_true.
  - rewrite turn_off_loop_poll_while. apply poll_while_aborts; [| done | done].
    intros j Hj. exists on. split; [by apply Hbefore | done].
Qed.

(** X6: a disable command returns, given fuel for [k] loop bodies, when
    the DELETE is accepted and the query, on until then, first answers
    something else after [k] refreshes; it has then run exactly [k]
    bodies. *)
Theorem turn_off_completes k fuel (self : PetFeederAccess) w bp tag :
  coordinator_data w !! _id self = Some (EntityEntry (SurePet bp tag)) →
  let del := detach_request (url (_feeder_id self) tag) in
  let w1 := record_event (Called del) w in
  accepted env w del →
  (∀ j, (j < k)%nat →
        is_on self (coordinator_data (after_polls env j w1)) = Return on) →
  (∃ a, is_on self (coordinator_data (after_polls env k w1)) = Return a ∧ a ≠ on) →
  (k ≤ fuel)%nat →
  turn_off fuel self w = Completed self (after_polls env k w1) ∧
  events (after_polls env k w1) = events w ++ Called del :: poll_events k.
Proof.
  intros Hp del w1 [r Hr] Hbefore (a & Hq & Hne) Hle.
  rewrite (turn_off_cached _ _ _ fuel self w bp tag Hp). fold del w1. rewrite Hr.
  rewrite turn_off_loop_poll_while. split.
  - apply poll_while_converges; [| | done].
    + intros j Hj. exists on. split; [by apply Hbefore | done].
    + exists a. split; [done |]. by apply continue_off_false.
  - rewrite events_after_polls. simpl. by rewrite <- app_assoc.
Qed.

(** X7: while the query keeps answering on, the confirm loop of the
    disable command does not return on any fuel: after [fuel] bodies it
    is still polling. *)
Theorem turn_off_loop_never_returns_while_on (self : PetFeederAccess) w :
  (∀ j, is_on self (coordinator_data (after_polls env j w)) = Return on) →
  ∀ fuel,
    turn_off_loop env fuel self w = Polling self (after_polls env fuel w) ∧
    events (after_polls env fuel w) = events w ++ poll_events fuel ∧
    (∀ s' w', turn_off_loop env fuel self w ≠ Completed s' w').
Proof.
  intros Hon fuel.
  assert (Hloop : turn_off_loop env fuel self w = Polling self (after_polls env fuel w)).
  { rewrite turn_off_loop_poll_while. apply poll_while_stalled.
    intros j _. exists on. split; [apply Hon | done]. }
  split; [done |]. split; [apply events_after_polls |].
  intros s' w'. by rewrite Hloop.
Qed.

End CommandErrors.

Lemma commands_without_pet_send_nothing_witness :
  ∃ err,
    async_turn_on demo_base demo_format stalled_env 3 demo_toggle
      {| coordinator_data := ∅; events := [] |}
    = Raised err demo_toggle {| coordinator_data := ∅; events := [] |}.
Proof.
  destruct (commands_without_pet_send_nothing demo_base demo_format stalled_env 3
              demo_toggle {| coordinator_data := ∅; events := [] |})
    as (err & Hon & _).
  - intros bp tag. discriminate.
  - by exists err.
Defined.

Lemma remote_failure_ends_command_witness :
  async_turn_on demo_base demo_format refusing_env 3 demo_toggle (demo_world [3; 9])
  = Raised RemoteError demo_toggle
      (record_event (Called (attach_request (demo_format demo_base 2 7)))
         (demo_world [3; 9])).
Proof.
  refine (proj1 (remote_failure_ends_command demo_base demo_format refusing_env 3
                   demo_toggle (demo_world [3; 9]) tom 7 RemoteError _) _);
    reflexivity.
Defined.

Lemma loops_end_when_query_raises_witness :
  turn_on_loop vanishing_env 3 demo_toggle (demo_world [3; 9])
  = Raised KeyError demo_toggle (after_polls vanishing_env 1 (demo_world [3; 9])).
Proof.
  refine (proj1 (loops_end_when_query_raises vanishing_env 1 3 demo_toggle
                   (demo_world [3; 9]) KeyError _ _) _).
  - vm_compute. reflexivity.
  - lia.
  - intros j Hj. assert (j = O) as -> by lia. exists off.
    split; [vm_compute; reflexivity | discriminate].
Defined.

Lemma turn_off_completes_witness :
  async_turn_off demo_base demo_format detaching_env 3 demo_toggle (demo_world [3; 7; 9])
  = Completed demo_toggle
      (after_polls detaching_env 1
         (record_event (Called (detach_request (demo_format demo_base 2 7)))
            (demo_world [3; 7; 9]))).
Proof.
  refine (proj1 (turn_off_completes demo_base demo_format detaching_env 1 3 demo_toggle
                   (demo_world [3; 7; 9]) tom 7 _ _ _ _ _)).
  - reflexivity.
  - by exists (PDict []).
  - intros j Hj. assert (j = O) as -> by lia. vm_compute. reflexivity.
  - exists off. split; [vm_compute; reflexivity | discriminate].
  - lia.
Defined.

Lemma turn_off_loop_never_returns_while_on_witness :
  turn_off_loop stalled_env 4 demo_toggle (demo_world [3; 7; 9])
  = Polling demo_toggle (after_polls stalled_env 4 (demo_world [3; 7; 9])).
Proof.
  refine (proj1 (turn_off_loop_never_returns_while_on stalled_env demo_toggle
                   (demo_world [3; 7; 9]) _ 4%nat)).
  intros j. rewrite stalled_env_keeps_cache. vm_compute. reflexivity.
Defined.

(** ** What the constructors store *)

Lemma append_assoc (a b c : string) : (a +:+ b) +:+ c = a +:+ (b +:+ c).
Proof.
  induction a as [|x a IH]; [reflexivity |].
  change (String x ((a +:+ b) +:+ c) = String x (a +:+ (b +:+ c))). by f_equal.
Qed.

(** The attributes of a constructed toggle, spelled out on the two
    cached entities. *)
Lemma toggle_init_attributes (data : Cache) pid fid (t : PetFeederAccess) :
  PetFeederAccess_init data pid fid = Return t →
  ∃ p f,
    data !! pid = Some (EntityEntry p) ∧ data !! fid = Some (EntityEntry f) ∧
    _name t = (if name_truthy (Entity.name (base p)) then name_str (Entity.name (base p))
               else "Unnamed " +:+ type_title (Entity.type (base p))) ∧
    _attr_name t = type_title (Entity.type (base p)) +:+ " " +:+ _name t +:+ " "
                   +:+ name_str (Entity.name (base f)) +:+ " Access" ∧
    _attr_unique_id t = str_of_Z (Entity.household_id (base p)) +:+ "-"
                        +:+ str_of_Z (Entity.id (base p)) +:+ "-"
                        +:+ str_of_Z (Entity.id (base f)) +:+ "-feeder-access" ∧
    _attr_extra_state_attributes t
    = (if _attr_available t then Some (Entity.raw_data (base p)) else None).
Proof.
  unfold PetFeederAccess_init, SurePetcareSwitch_init, cache_subscript. intros H.
  destruct (data !! pid) as [[|p]|]; try done. simpl in H.
  destruct (data !! fid) as [[|f]|]; try done. simpl in H.
  injection H as <-. exists p, f. simpl. repeat (split; [done |]).
  split; [|done]. by rewrite append_assoc.
Qed.

(** X8: the display name of a constructed toggle is the type title,
    the pet's name, the feeder's name and "Access", separated by blanks.
    The pet's part is never empty: for a pet whose name is [None] or the
    empty string it is "Unnamed" followed by the type title.  A feeder
    whose name is [None] shows as "None". *)
Theorem toggle_display_name (data : Cache) pid fid (t : PetFeederAccess) :
  PetFeederAccess_init data pid fid = Return t →
  ∃ p f,
    data !! pid = Some (EntityEntry p) ∧ data !! fid = Some (EntityEntry f) ∧
    _name t ≠ EmptyString ∧
    (Entity.name (base p) = None ∨ Entity.name (base p) = Some EmptyString →
     _name t = "Unnamed " +:+ type_title (Entity.type (base p))) ∧
    (∀ n, Entity.name (base p) = Some n → n ≠ EmptyString → _name t = n) ∧
    (∀ n, Entity.name (base f) = Some n →
          _attr_name t = type_title (Entity.type (base p)) +:+ " " +:+ _name t +:+ " "
                         +:+ n +:+ " Access") ∧
    (Entity.name (base f) = None →
     _attr_name t = type_title (Entity.type (base p)) +:+ " " +:+ _name t
                    +:+ " None Access").
Proof.
  intros H. apply toggle_init_attributes in H as (p & f & Hp & Hf & Hn & Han & _).
  exists p, f. split; [done |]. split; [done |]. rewrite Han, Hn.
  split; [|split; [|split; [|split]]].
  - destruct (Entity.name (base p)) as [[|c s]|]; simpl; done.
  - by intros [-> | ->].
  - intros n -> Hne. by destruct n.
  - by intros n ->.
  - by intros ->.
Qed.

Lemma toggle_display_name_witness :
  PetFeederAccess_init nameless_cache 4 2 = Return nameless_toggle ∧
  _attr_name nameless_toggle = "Pet Unnamed Pet Kitchen Access".
Proof.
  split; [vm_compute; reflexivity |].
  destruct (toggle_display_name nameless_cache 4 2 nameless_toggle)
    as (p & f & Hp & Hf & _).
  - vm_compute. reflexivity.
  - reflexivity.
Defined.

(** X9: a constructed toggle exposes the entity's raw document as its
    extra state attributes exactly when it is available, and has no
    extra state attributes otherwise. *)
Theorem extra_attributes_iff_available (data : Cache) pid fid (t : PetFeederAccess) :
  PetFeederAccess_init data pid fid = Return t →
  ∃ p, data !! pid = Some (EntityEntry p) ∧
       (_attr_available t = true →
        _attr_extra_state_attributes t = Some (Entity.raw_data (base p))) ∧
       (_attr_available t = false → _attr_extra_state_attributes t = None) ∧
       (is_Some (_attr_extra_state_attributes t) ↔ _attr_available t = true).
Proof.
  intros H. apply toggle_init_attributes in H as (p & f & Hp & _ & _ & _ & _ & Hex).
  exists p. split; [done |]. rewrite Hex. destruct (_attr_available t).
  - split; [done |]. split; [done |]. split; [done | by eexists].
  - split; [done |]. split; [done |]. split; [by intros [? ?] | done].
Qed.

Lemma extra_attributes_iff_available_witness :
  PetFeederAccess_init (demo_cache [3; 9]) 1 2 = Return demo_toggle ∧
  (is_Some (_attr_extra_state_attributes demo_toggle) ↔ _attr_available demo_toggle = true).
Proof.
  split; [vm_compute; reflexivity |].
  destruct (extra_attributes_iff_available (demo_cache [3; 9]) 1 2 demo_toggle)
    as (p & _ & _ & _ & Hiff).
  - vm_compute. reflexivity.
  - exact Hiff.
Defined.

(** ** Device information: what is returned and what is raised *)

Section DeviceInfoResults.

Variable DOMAIN : string.
Variable SURE_MANUFACTURER : string.

Local Abbreviation info := (device_info DOMAIN SURE_MANUFACTURER).
Local Abbreviation try_block := (device_info_try DOMAIN SURE_MANUFACTURER).
Local Abbreviation record_of := (base_device DOMAIN SURE_MANUFACTURER).

(** Without a truthy state the block ends with the assignment. *)
Lemma try_block_no_state (self : SurePetcareSwitch) n :
  Entity.name (base (_surepy_entity self)) = Some n →
  truthy (_state self) = false →
  try_block self ∅ = (Return tt, record_of self (capitalize n)).
Proof.
  intros Hn Hs. unfold device_info_try. rewrite Hn.
  unfold mbind, Try_bind, mret, Try_ret, eval, assign. simpl. by rewrite Hs.
Qed.

Lemma record_of_lookups (self : SurePetcareSwitch) n :
  record_of self n !! "identifiers" = Some (Identifiers [(DOMAIN, _id self)]) ∧
  record_of self n !! "name" = Some (Info (PStr n)) ∧
  record_of self n !! "manufacturer" = Some (Info (PStr SURE_MANUFACTURER)) ∧
  record_of self n !! "model"
  = Some (Info (PStr (device_model (base (_surepy_entity self))))) ∧
  record_of self n !! "sw_version" = None.
Proof. unfold base_device. by repeat split. Qed.

(** X10: what [device_info] returns is either the empty record, and
    then the entity's name is [None], or a record that carries the
    identifier pair of the entity's id, the capitalised name, the
    manufacturer and the model; it has no "sw_version" when the entity
    has no truthy state. *)
Theorem device_info_returns_record (self : SurePetcareSwitch) device :
  info self = Return device →
  (Entity.name (base (_surepy_entity self)) = None ∧ device = ∅) ∨
  (∃ n, Entity.name (base (_surepy_entity self)) = Some n ∧
        device !! "identifiers" = Some (Identifiers [(DOMAIN, _id self)]) ∧
        device !! "name" = Some (Info (PStr (capitalize n))) ∧
        device !! "manufacturer" = Some (Info (PStr SURE_MANUFACTURER)) ∧
        device !! "model"
        = Some (Info (PStr (device_model (base (_surepy_entity self))))) ∧
        (truthy (_state self) = false → device !! "sw_version" = None)).
Proof.
  intros H.
  assert (∃ r, try_block self ∅ = (r, device)) as [r Hr].
  { unfold device_info in H. destruct (try_block self ∅) as [[u|e] d].
    - injection H as <-. eauto.
    - destruct e; try done. injection H as <-. eauto. }
  destruct (Entity.name (base (_surepy_entity self))) as [n|] eqn:Hn.
  - right. exists n. split; [done |].
    destruct (record_of_lookups self (capitalize n)) as (Hi & Hnm & Hm & Hmo & Hsw).
    assert (Hstate : truthy (_state self) = false → device !! "sw_version" = None).
    { intros Hs. rewrite (try_block_no_state self n Hn Hs) in Hr.
      injection Hr as _ <-. done. }
    destruct (try_block_named DOMAIN SURE_MANUFACTURER self n r device Hn Hr)
      as [-> | [fw ->]]; [done |].
    repeat (split; [by rewrite lookup_insert_ne |]). exact Hstate.
  - left. split; [done |]. rewrite (try_block_nameless _ _ self Hn) in Hr. congruence.
Qed.

(** X11: [device_info] raises nothing but [KeyError] and [TypeError],
    and raises only for a named entity with a truthy state whose LCD and
    RF version entries are both truthy: the exceptions come from the
    ["firmware"] subscripts of the combined version string. *)
Theorem device_info_raises_only (self : SurePetcareSwitch) err :
  info self = Raise err →
  (err = KeyError ∨ err = TypeError) ∧
  truthy (_state self) = true ∧
  ∃ n versions lcd rf,
    Entity.name (base (_surepy_entity self)) = Some n ∧
    py_get_default (_state self) "version" (PDict []) = Return versions ∧
    py_get_default versions "lcd" (PDict []) = Return lcd ∧ truthy lcd = true ∧
    py_get_default versions "rf" (PDict []) = Return rf ∧ truthy rf = true.
Proof.
  unfold device_info, device_info_try.
  destruct (Entity.name (base (_surepy_entity self))) as [n|]; [|done].
  unfold mbind, Try_bind, mret, Try_ret, eval, assign, setitem. simpl.
  intros H.
  repeat (match type of H with
          | context [truthy ?v] => destruct (truthy v) eqn:?
          | context [py_get_default ?v ?k ?d] => destruct (py_get_default v k d) eqn:?
          | context [py_get ?v ?k] => destruct (py_get v k) eqn:?
          | context [py_subscript ?v ?k] => destruct (py_subscript v k) eqn:?
          end; simpl in H);
    repeat match goal with
           | E : py_get_default ?v _ _ = Raise ?e |- _ =>
               destruct v; simpl in E; simplify_eq
           | E : py_get ?v _ = Raise ?e |- _ => destruct v; simpl in E; simplify_eq
           | E : py_subscript ?v _ = Raise ?e |- _ =>
               unfold py_subscript in E; destruct v; try case_match; simplify_eq
           end;
    simplify_eq;
    repeat match goal with
           | E : match dict_lookup ?d ?k with _ => _ end = _ |- _ =>
               destruct (dict_lookup d k); simplify_eq
           end;
    (split; [by auto |]); (split; [done |]); by eauto 12.
Qed.

(** X12: when the status carries LCD and RF version records that both
    hold a firmware entry, and the device firmware lookup goes through,
    the "sw_version" of the returned record is the combined string,
    whether or not a device firmware version had been stored first. *)
Theorem device_info_lcd_rf_version (self : SurePetcareSwitch) n st vs l r fw lf rfw :
  Entity.name (base (_surepy_entity self)) = Some n →
  _state self = PDict st → st ≠ [] →
  dict_lookup st "version" = Some (PDict vs) →
  py_get (dict_get_default vs "device" (PDict [])) "firmware" = Return fw →
  dict_lookup vs "lcd" = Some (PDict l) → dict_lookup vs "rf" = Some (PDict r) →
  py_subscript (dict_get_default l "version" (PDict l)) "firmware" = Return lf →
  py_subscript (dict_get_default r "version" (PDict r)) "firmware" = Return rfw →
  l ≠ [] → r ≠ [] →
  info self
  = Return (<["sw_version" :=
               Info (PStr ("lcd: " +:+ py_str lf +:+ " | fw: " +:+ py_str rfw))]>
              (record_of self (capitalize n))).
Proof.
  intros Hn Hst Hne Hvs Hfw Hl Hr Hlf Hrf Hlne Hrne.
  assert (Ht : truthy (PDict st) = true) by (by destruct st).
  assert (Htl : truthy (PDict l) = true) by (by destruct l).
  assert (Htr : truthy (PDict r) = true) by (by destruct r).
  assert (E1 : py_get_default (PDict st) "version" (PDict []) = Return (PDict vs))
    by (unfold py_get_default, dict_get_default; by rewrite Hvs).
  assert (E2 : py_get_default (PDict vs) "device" (PDict [])
               = Return (dict_get_default vs "device" (PDict []))) by reflexivity.
  assert (E3 : py_get_default (PDict vs) "lcd" (PDict []) = Return (PDict l))
    by (unfold py_get_default, dict_get_default; by rewrite Hl).
  assert (E4 : py_get_default (PDict vs) "rf" (PDict []) = Return (PDict r))
    by (unfold py_get_default, dict_get_default; by rewrite Hr).
  assert (E5 : py_get_default (PDict l) "version" (PDict l)
               = Return (dict_get_default l "version" (PDict l))) by reflexivity.
  assert (E6 : py_get_default (PDict r) "version" (PDict r)
               = Return (dict_get_default r "version" (PDict r))) by reflexivity.
  unfold device_info, device_info_try. rewrite Hn, Hst.
  unfold mbind, Try_bind, mret, Try_ret, eval, assign, setitem.
  cbn [name_capitalize]. cbv beta iota. rewrite Ht, E1. cbv beta iota.
  rewrite E2. cbv beta iota. rewrite Hfw. cbv beta iota.
  destruct (truthy fw); cbv beta iota; rewrite E3; cbv beta iota; rewrite Htl, E4;
    cbv beta iota; rewrite Htr, E5; cbv beta iota; rewrite Hlf; cbv beta iota;
    rewrite E6; cbv beta iota; rewrite Hrf; cbv beta iota.
  - by rewrite insert_insert_eq.
  - done.
Qed.

End DeviceInfoResults.

Lemma device_info_returns_record_witness :
  device_info "sureha" "Sure Petcare" demo_switch
  = Return (base_device "sureha" "Sure Petcare" demo_switch "Tom") ∧
  base_device "sureha" "Sure Petcare" demo_switch "Tom" !! "model"
  = Some (Info (PStr "Pet (7)")).
Proof.
  split; [reflexivity |].
  destruct (device_info_returns_record "sureha" "Sure Petcare" demo_switch
              (base_device "sureha" "Sure Petcare" demo_switch "Tom") eq_refl)
    as [[Hn _] | (n & Hn & _ & _ & _ & Hm & _)].
  - discriminate Hn.
  - exact Hm.
Defined.

Lemma device_info_raises_only_witness :
  device_info "sureha" "Sure Petcare" keyless_switch = Raise KeyError ∧
  truthy (_state keyless_switch) = true.
Proof.
  split; [reflexivity |].
  exact (proj1 (proj2 (device_info_raises_only "sureha" "Sure Petcare" keyless_switch
                         KeyError eq_refl))).
Defined.

Lemma device_info_lcd_rf_version_witness :
  device_info "sureha" "Sure Petcare" versioned_switch
  = Return (<["sw_version" := Info (PStr "lcd: 1.2 | fw: 3.4")]>
              (base_device "sureha" "Sure Petcare" versioned_switch "Hall")).
Proof.
  apply (device_info_lcd_rf_version "sureha" "Sure Petcare" versioned_switch "hall"
           [("version",
             PDict [("device", PDict [("firmware", PStr "0.9")]);
                    ("lcd", PDict [("version", PDict [("firmware", PStr "1.2")])]);
                    ("rf", PDict [("firmware", PStr "3.4")])])]
           [("device", PDict [("firmware", PStr "0.9")]);
            ("lcd", PDict [("version", PDict [("firmware", PStr "1.2")])]);
            ("rf", PDict [("firmware", PStr "3.4")])]
           [("version", PDict [("firmware", PStr "1.2")])]
           [("firmware", PStr "3.4")]
           (PStr "0.9") (PStr "1.2") (PStr "3.4"));
    try reflexivity; discriminate.
Defined.

(** ** Decimal renderings *)

Lemma append_cons c (s r : string) : String c s +:+ r = String c (s +:+ r).
Proof. reflexivity. Qed.

Lemma uint_digits d : all_digits (NilEmpty.string_of_uint d) = true.
Proof. induction d; simpl; auto. Qed.

(** [str(n)] is a non-empty run of digits, with a minus sign in front
    for a negative number. *)
Lemma str_of_Z_shape z :
  ∃ ds, ds ≠ EmptyString ∧ all_digits ds = true ∧
        (str_of_Z z = ds ∨ str_of_Z z = String "-" ds).
Proof.
  unfold str_of_Z, NilZero.string_of_int, NilZero.string_of_uint.
  destruct (Z.to_int z) as [d|d];
    (destruct d eqn:Hd;
     [ exists "0"; split; [done |]; split; [done |]; auto
     | rewrite <- Hd; exists (NilEmpty.string_of_uint d);
       (split; [by subst d |]); (split; [apply uint_digits |]); auto .. ]).
Qed.

Lemma str_of_Z_inj a b : str_of_Z a = str_of_Z b → a = b.
Proof.
  unfold str_of_Z. intros H. apply DecimalZ.to_int_inj.
  assert (Hnn : ∀ z, Z.to_int z ≠ Decimal.Pos Decimal.Nil ∧ Z.to_int z ≠ Decimal.Neg Decimal.Nil).
  { intros [|p|p]; simpl; split; try done;
      intros [= Hp]; by apply DecimalPos.Unsigned.to_uint_nonnil in Hp. }
  destruct (Hnn a) as [Ha1 Ha2], (Hnn b) as [Hb1 Hb2].
  pose proof (NilZero.isi _ Ha1 Ha2) as Ia. pose proof (NilZero.isi _ Hb1 Hb2) as Ib.
  rewrite H in Ia. congruence.
Qed.

(** Two runs of digits, each followed by a minus sign, that start the
    same string are the same run. *)
Lemma digits_prefix_unique d1 : ∀ d2 r1 r2,
  all_digits d1 = true → all_digits d2 = true →
  d1 +:+ String "-" r1 = d2 +:+ String "-" r2 → d1 = d2 ∧ r1 = r2.
Proof.
  induction d1 as [|c1 d1 IH]; intros [|c2 d2] r1 r2 H1 H2 H.
  - by injection H as ->.
  - rewrite append_cons in H. injection H as <- _. done.
  - rewrite append_cons in H. injection H as -> _. done.
  - rewrite !append_cons in H. injection H as -> H. simpl in H1, H2.
    apply andb_prop in H1 as [_ H1], H2 as [_ H2].
    destruct (IH d2 r1 r2 H1 H2 H) as [-> ->]. done.
Qed.

(** The rendering of a number followed by a minus sign can be read
    back off the front of a string in one way only. *)
Lemma str_of_Z_prefix_unique a b r1 r2 :
  str_of_Z a +:+ String "-" r1 = str_of_Z b +:+ String "-" r2 → a = b ∧ r1 = r2.
Proof.
  intros H.
  destruct (str_of_Z_shape a) as (da & Hna & Hda & Ha).
  destruct (str_of_Z_shape b) as (db & Hnb & Hdb & Hb).
  assert (Hfirst : ∀ ds, ds ≠ EmptyString → all_digits ds = true →
                         ∀ r r', ds +:+ r ≠ String "-" r').
  { intros [|c ds] Hne Hd r r'; [done |]. rewrite append_cons. intros [= -> _]. done. }
  destruct Ha as [Ea | Ea], Hb as [Eb | Eb]; rewrite Ea, Eb in H.
  - destruct (digits_prefix_unique _ _ _ _ Hda Hdb H) as [-> ->].
    split; [|done]. apply str_of_Z_inj. congruence.
  - rewrite append_cons in H. by apply Hfirst in H.
  - rewrite append_cons in H. symmetry in H. by apply Hfirst in H.
  - rewrite !append_cons in H. injection H as H.
    destruct (digits_prefix_unique _ _ _ _ Hda Hdb H) as [-> ->].
    split; [|done]. apply str_of_Z_inj. congruence.
Qed.

(** ** Unique ids *)

(** X13: the unique id of a toggle determines its pair: two toggles,
    built from any caches, that carry the same unique id were built for
    pets of the same household with the same entity id and for feeders
    with the same entity id. *)
Theorem unique_id_determines_pair (data1 data2 : Cache) pid1 fid1 pid2 fid2
    (t1 t2 : PetFeederAccess) :
  PetFeederAccess_init data1 pid1 fid1 = Return t1 →
  PetFeederAccess_init data2 pid2 fid2 = Return t2 →
  _attr_unique_id t1 = _attr_unique_id t2 →
  ∃ p1 f1 p2 f2,
    data1 !! pid1 = Some (EntityEntry p1) ∧ data1 !! fid1 = Some (EntityEntry f1) ∧
    data2 !! pid2 = Some (EntityEntry p2) ∧ data2 !! fid2 = Some (EntityEntry f2) ∧
    Entity.household_id (base p1) = Entity.household_id (base p2) ∧
    Entity.id (base p1) = Entity.id (base p2) ∧
    Entity.id (base f1) = Entity.id (base f2).
Proof.
  intros H1 H2 Hu.
  apply toggle_init_attributes in H1 as (p1 & f1 & Hp1 & Hf1 & _ & _ & Hu1 & _).
  apply toggle_init_attributes in H2 as (p2 & f2 & Hp2 & Hf2 & _ & _ & Hu2 & _).
  exists p1, f1, p2, f2. repeat (split; [done |]).
  rewrite Hu1, Hu2 in Hu.
  apply str_of_Z_prefix_unique in Hu as [Hh Hu].
  apply str_of_Z_prefix_unique in Hu as [Hp Hu].
  apply str_of_Z_prefix_unique in Hu as [Hf _]. done.
Qed.

Lemma unique_id_determines_pair_witness :
  PetFeederAccess_init (demo_cache [3; 9]) 1 2 = Return demo_toggle ∧
  ∃ p1 f1 p2 f2,
    demo_cache [3; 9] !! 1 = Some (EntityEntry p1) ∧
    demo_cache [3; 9] !! 2 = Some (EntityEntry f1) ∧
    demo_cache [3; 7; 9] !! 1 = Some (EntityEntry p2) ∧
    demo_cache [3; 7; 9] !! 2 = Some (EntityEntry f2) ∧
    Entity.household_id (base p1) = Entity.household_id (base p2) ∧
    Entity.id (base p1) = Entity.id (base p2) ∧
    Entity.id (base f1) = Entity.id (base f2).
Proof.
  split; [vm_compute; reflexivity |].
  apply (unique_id_determines_pair (demo_cache [3; 9]) (demo_cache [3; 7; 9]) 1 2 1 2
           demo_toggle demo_toggle); vm_compute; reflexivity.
Defined.

(** ** The enumeration as a whole *)

(** What [async_setup_entry] returns on a cache keyed by entity id. *)
Lemma setup_entities_spec (data : Cache) :
  cache_wf data →
  ∃ entities,
    async_setup_entry data = Return entities ∧
    NoDup (toggle_key <$> entities) ∧
    Forall (fun t : PetFeederAccess =>
              PetFeederAccess_init data (_id t) (_feeder_id t) = Return t) entities ∧
    (∀ pid fid,
       (pid, fid) ∈ toggle_key <$> entities ↔
       ∃ p f, data !! pid = Some (EntityEntry p) ∧ data !! fid = Some (EntityEntry f) ∧
              Entity.type (base p) = PET ∧ Entity.type (base f) = FEEDER ∧
              Entity.household_id (base p) = Entity.household_id (base f)).
Proof.
  intros Hwf. destruct (cache_wf_entities data Hwf) as (ents & Hvals & Hnd & Hin).
  assert (Hcached : ∀ e, e ∈ ents → data !! Entity.id (base e) = Some (EntityEntry e))
    by (intros e; apply Hin).
  assert (Hinj : ∀ e1 e2, e1 ∈ ents → e2 ∈ ents →
                          Entity.id (base e1) = Entity.id (base e2) → e1 = e2).
  { intros e1 e2 H1 H2 Heq. apply Hcached in H1, H2. rewrite Heq in H1. congruence. }
  set (pets := filter (fun e => Entity.type (base e) = PET) ents).
  set (feeders := filter (fun e => Entity.type (base e) = FEEDER) ents).
  destruct (for_pets_spec data ents Hcached feeders pets []) as (l & Hrun & Hkeys & Hbuilt).
  { intros p Hp. by apply list_elem_of_filter in Hp as [_ ?]. }
  { intros f Hf. by apply list_elem_of_filter in Hf as [_ ?]. }
  exists l. split; [|split; [|split; [done |]]].
  - unfold async_setup_entry. by rewrite Hvals, !select_type_entities, !rbind_Return.
  - rewrite Hkeys. apply NoDup_bind.
    + intros p1 p2 [a b] Hp1 Hp2 H1 H2. unfold pairs_for in H1, H2.
      apply list_elem_of_fmap in H1 as (f1 & [= -> ->] & _).
      apply list_elem_of_fmap in H2 as (f2 & [= Hid _] & _).
      apply list_elem_of_filter in Hp1 as [_ Hp1], Hp2 as [_ Hp2]. by apply Hinj.
    + intros p Hp. unfold pairs_for. apply NoDup_fmap_2_strong.
      * intros f1 f2 Hf1 Hf2 [= Hid].
        apply list_elem_of_filter in Hf1 as [_ Hf1], Hf2 as [_ Hf2].
        apply list_elem_of_filter in Hf1 as [_ Hf1], Hf2 as [_ Hf2]. by apply Hinj.
      * apply NoDup_filter. by apply NoDup_filter.
    + by apply NoDup_filter.
  - intros pid fid. rewrite Hkeys, list_elem_of_bind. split.
    + intros (p & Hpair & Hp). unfold pairs_for in Hpair.
      apply list_elem_of_fmap in Hpair as (f & [= -> ->] & Hf).
      apply list_elem_of_filter in Hf as [Hhh Hf].
      apply list_elem_of_filter in Hp as [Htp Hp], Hf as [Htf Hf].
      exists p, f. auto 10.
    + intros (p & f & Hp & Hf & Htp & Htf & Hhh).
      destruct (Hwf _ _ Hp) as (p' & [= <-] & <-).
      destruct (Hwf _ _ Hf) as (f' & [= <-] & <-).
      apply Hin in Hp, Hf. exists p. split.
      * unfold pairs_for.
        apply (list_elem_of_fmap_2 (fun f => (Entity.id (base p), Entity.id (base f)))).
        apply list_elem_of_filter. split; [done |]. by apply list_elem_of_filter.
      * by apply list_elem_of_filter.
Qed.

Lemma select_type_none t (values : list CacheEntry) :
  NoneEntry ∈ values → select_type t values = Raise AttributeError.
Proof.
  induction values as [|c r IH]; intros Hin; [by apply not_elem_of_nil in Hin |].
  destruct c as [|e]; [reflexivity |].
  apply elem_of_cons in Hin as [[=] | Hin]. cbn [select_type]. by rewrite (IH Hin).
Qed.

(** X14: one slot of the cache that holds [None] makes the whole
    enumeration fail with [AttributeError]: no toggle is set up, for any
    pair. *)
Theorem setup_fails_on_none_slot (data : Cache) k :
  data !! k = Some NoneEntry →
  async_setup_entry data = Raise AttributeError ∧
  async_setup_platform data = Raise AttributeError.
Proof.
  intros Hk. unfold async_setup_platform, async_setup_entry.
  rewrite (select_type_none PET); [done |].
  apply list_elem_of_fmap. exists (k, NoneEntry). split; [done |].
  by apply elem_of_map_to_list.
Qed.

Lemma setup_fails_on_none_slot_witness :
  async_setup_entry cache_feeder_none = Raise AttributeError.
Proof.
  exact (proj1 (setup_fails_on_none_slot cache_feeder_none 2 eq_refl)).
Defined.

(** X15: on a cache keyed by entity id in which every PET is a pet
    with a [tag_id] and every FEEDER a feeder with [tags], the query of
    every toggle the enumeration sets up answers on or off on that
    cache: it neither raises nor answers unknown. *)
Theorem setup_toggles_answer (data : Cache) :
  cache_wf data →
  (∀ k e, data !! k = Some (EntityEntry e) →
          (Entity.type (base e) = PET → has_tag_id e = true) ∧
          (Entity.type (base e) = FEEDER → has_tags e = true)) →
  ∃ entities,
    async_setup_entry data = Return entities ∧
    ∀ t : PetFeederAccess, t ∈ entities → ∃ b : bool, is_on t data = Return (Some b).
Proof.
  intros Hwf Hcls.
  destruct (setup_entities_spec data Hwf) as (entities & Hrun & _ & _ & Hkeys).
  exists entities. split; [done |]. intros t Ht.
  assert (Hk : (_id t, _feeder_id t) ∈ toggle_key <$> entities)
    by (by apply (list_elem_of_fmap_2 toggle_key)).
  apply Hkeys in Hk as (p & f & Hp & Hf & Htp & Htf & _).
  destruct (Hcls _ _ Hp) as [Hpet _], (Hcls _ _ Hf) as [_ Hfeeder].
  specialize (Hpet Htp). specialize (Hfeeder Htf).
  destruct p as [bp tag| |]; try done. destruct f as [|bf tags|]; try done.
  eexists. by apply (is_on_present t data bp tag bf tags).
Qed.

Lemma demo_cache_classes k e :
  demo_cache [3; 9] !! k = Some (EntityEntry e) →
  (Entity.type (base e) = PET → has_tag_id e = true) ∧
  (Entity.type (base e) = FEEDER → has_tags e = true).
Proof.
  unfold demo_cache. rewrite !lookup_insert.
  repeat case_decide; subst; [| |by rewrite lookup_empty]; intros [= <-]; by split.
Qed.

Lemma setup_toggles_answer_witness :
  ∃ entities,
    async_setup_entry (demo_cache [3; 9]) = Return entities ∧
    ∀ t : PetFeederAccess,
      t ∈ entities → ∃ b : bool, is_on t (demo_cache [3; 9]) = Return (Some b).
Proof.
  exact (setup_toggles_answer (demo_cache [3; 9]) demo_cache_wf demo_cache_classes).
Defined.

(** X16: on a cache keyed by entity id, the toggles the enumeration
    sets up have pairwise different unique ids. *)
Theorem setup_unique_ids_distinct (data : Cache) :
  cache_wf data →
  ∃ entities,
    async_setup_entry data = Return entities ∧
    NoDup ((fun t : PetFeederAccess => _attr_unique_id t) <$> entities).
Proof.
  intros Hwf.
  destruct (setup_entities_spec data Hwf) as (entities & Hrun & Hnd & Hbuilt & _).
  exists entities. split; [done |].
  apply NoDup_fmap_2_strong; [|by apply NoDup_fmap_1 in Hnd].
  intros t1 t2 Ht1 Ht2 Hu.
  pose proof (proj1 (Forall_forall _ _) Hbuilt t1 Ht1) as H1.
  pose proof (proj1 (Forall_forall _ _) Hbuilt t2 Ht2) as H2.
  cbv beta in H1, H2.
  destruct (toggle_init_attributes _ _ _ _ H1) as (p1 & f1 & Hp1 & Hf1 & _ & _ & Hu1 & _).
  destruct (toggle_init_attributes _ _ _ _ H2) as (p2 & f2 & Hp2 & Hf2 & _ & _ & Hu2 & _).
  rewrite Hu1, Hu2 in Hu.
  apply str_of_Z_prefix_unique in Hu as [_ Hu].
  apply str_of_Z_prefix_unique in Hu as [Hp Hu].
  apply str_of_Z_prefix_unique in Hu as [Hf _].
  destruct (Hwf _ _ Hp1) as (? & [= <-] & Hi1), (Hwf _ _ Hp2) as (? & [= <-] & Hi2).
  destruct (Hwf _ _ Hf1) as (? & [= <-] & Hj1), (Hwf _ _ Hf2) as (? & [= <-] & Hj2).
  rewrite <- Hi1, <- Hj1, Hp, Hf, Hi2, Hj2 in H1. congruence.
Qed.

Lemma setup_unique_ids_distinct_witness :
  ∃ entities,
    async_setup_entry (demo_cache [3; 9]) = Return entities ∧
    NoDup ((fun t : PetFeederAccess => _attr_unique_id t) <$> entities).
Proof. exact (setup_unique_ids_distinct (demo_cache [3; 9]) demo_cache_wf). Defined.

(** X17: on a cache keyed by entity id, the enumeration sets up no
    toggle at all exactly when no cached PET shares its household with a
    cached FEEDER; an empty cache is one such case. *)
Theorem setup_empty_iff (data : Cache) :
  cache_wf data →
  (async_setup_entry data = Return [] ↔
   ¬ ∃ pid fid p f,
       data !! pid = Some (EntityEntry p) ∧ data !! fid = Some (EntityEntry f) ∧
       Entity.type (base p) = PET ∧ Entity.type (base f) = FEEDER ∧
       Entity.household_id (base p) = Entity.household_id (base f)).
Proof.
  intros Hwf.
  destruct (setup_entities_spec data Hwf) as (entities & Hrun & _ & _ & Hkeys).
  rewrite Hrun. split.
  - intros [= ->] (pid & fid & p & f & H).
    assert (Hin : (pid, fid) ∈ toggle_key <$> []) by (apply Hkeys; eauto).
    by apply not_elem_of_nil in Hin.
  - intros Hno. destruct entities as [|t r]; [done |]. destruct Hno.
    assert (Hin : toggle_key t ∈ toggle_key <$> t :: r) by (rewrite fmap_cons; by left).
    destruct (toggle_key t) as [pid fid]. apply Hkeys in Hin as (p & f & H).
    by exists pid, fid, p, f.
Qed.

Lemma empty_cache_wf : cache_wf ∅.
Proof. intros k c. by rewrite lookup_empty. Qed.

Lemma setup_empty_iff_witness : async_setup_entry ∅ = Return [].
Proof.
  apply (setup_empty_iff ∅ empty_cache_wf).
  intros (pid & fid & p & f & Hp & _). by rewrite lookup_empty in Hp.
Defined.

(** ** What the query reads *)

(** X18: the query reads the pet's and the feeder's slot and nothing
    else: on two caches that agree on these two keys it gives the same
    result, whatever else a refresh has changed. *)
Theorem is_on_reads_two_slots (self : PetFeederAccess) (data1 data2 : Cache) :
  data1 !! _id self = data2 !! _id self →
  data1 !! _feeder_id self = data2 !! _feeder_id self →
  is_on self data1 = is_on self data2.
Proof. intros Hp Hf. unfold is_on, cache_subscript. by rewrite Hp, Hf. Qed.

Lemma is_on_reads_two_slots_witness :
  is_on demo_toggle (demo_cache [3; 9]) = is_on demo_toggle nameless_cache.
Proof.
  apply (is_on_reads_two_slots demo_toggle (demo_cache [3; 9]) nameless_cache);
    reflexivity.
Defined.
